(** * guardrails.datatypes: directive parsing and schema-driven validation

    A shallow embedding of [guardrails/datatypes.py]: the [FormatAttr]
    directive parser, the scalar coercions ([from_str]) and the recursive
    [validate] methods of the schema nodes, together with the properties
    the specification states about them.

    Conventions.
    - Python strings are modelled as [string], read as sequences of
      code points below 256; whitespace and case are those of [str] on
      these code points.
    - Python objects that are mutated in place (dicts and lists) live in
      an explicit store ([heap]); a runtime value refers to them through
      [VRef], so aliasing between a value and its container is kept.
    - A Python exception is a [Raise]; behaviour that this development
      does not describe is the separate outcome [Unmodelled], and a loop
      that exhausts its budget is [OutOfFuel].
    - The class names [String], [List], [Object], ... are prefixed with
      [T] because they clash with Rocq's own modules. *)

From Stdlib Require Import ZArith Ascii String List Lia Bool.
From stdpp Require Import base option list gmap strings.

Local Open Scope Z_scope.
Local Open Scope string_scope.

(** ** Outcomes *)

(** The exception classes the module raises or lets through. *)
Inductive exn : Type :=
  | ValueError
  | TypeError
  | KeyError
  | IndexError
  | AttributeError
  | SyntaxError
  | NameError
  | ZeroDivisionError
  | OtherError (name : string).

Inductive result (A : Type) : Type :=
  | Ok (a : A)
  | Raise (e : exn)
  | OutOfFuel
  | Unmodelled.

Arguments Ok {A} a.
Arguments Raise {A} e.
Arguments OutOfFuel {A}.
Arguments Unmodelled {A}.

#[export] Instance result_ret : MRet result := fun _ a => Ok a.

#[export] Instance result_bind : MBind result := fun _ _ f m =>
  match m with
  | Ok a => f a
  | Raise e => Raise e
  | OutOfFuel => OutOfFuel
  | Unmodelled => Unmodelled
  end.

#[export] Instance result_fmap : FMap result := fun _ _ f m =>
  match m with
  | Ok a => Ok (f a)
  | Raise e => Raise e
  | OutOfFuel => OutOfFuel
  | Unmodelled => Unmodelled
  end.

Definition is_ok {A} (r : result A) : bool :=
  match r with Ok _ => true | _ => false end.

(** ** Strings *)

Module PyStr.

(** [str.isspace] on one character, which is also what [\s] matches:
    tab to carriage return, the four separators 28 to 31, the space,
    NEL (133) and the no-break space (160). *)
Definition is_space (c : ascii) : bool :=
  let n := nat_of_ascii c in
  ((9 <=? n) && (n <=? 13) || (28 <=? n) && (n <=? 32)
   || (n =? 133) || (n =? 160))%nat.

Fixpoint lstrip (s : string) : string :=
  match s with
  | String c s' => if is_space c then lstrip s' else s
  | EmptyString => EmptyString
  end.

(** Drops trailing whitespace: a character survives when it is not
    whitespace or when something survives after it. *)
Fixpoint rstrip (s : string) : string :=
  match s with
  | EmptyString => EmptyString
  | String c s' =>
      match rstrip s' with
      | EmptyString => if is_space c then EmptyString else String c EmptyString
      | r => String c r
      end
  end.

(** [s.strip()] *)
Definition strip (s : string) : string := rstrip (lstrip s).

Definition lower_char (c : ascii) : ascii :=
  let n := nat_of_ascii c in
  if ((65 <=? n) && (n <=? 90)
      || (192 <=? n) && (n <=? 222) && negb (n =? 215))%nat
  then ascii_of_nat (n + 32) else c.

(** [s.lower()] *)
Fixpoint lower (s : string) : string :=
  match s with
  | EmptyString => EmptyString
  | String c s' => String (lower_char c) (lower s')
  end.

(** [s.split(sep, 1)] for a one-character separator: [(s, None)] when
    the separator does not occur (a one-element list in Python), else
    the text before the first occurrence and the text after it. *)
Fixpoint split_once (sep : ascii) (s : string) : string * option string :=
  match s with
  | EmptyString => (EmptyString, None)
  | String c s' =>
      if Ascii.eqb c sep then (EmptyString, Some s')
      else let '(a, b) := split_once sep s' in (String c a, b)
  end.

Fixpoint contains (c : ascii) (s : string) : bool :=
  match s with
  | EmptyString => false
  | String d s' => Ascii.eqb d c || contains c s'
  end.

Fixpoint last (s : string) : option ascii :=
  match s with
  | EmptyString => None
  | String c EmptyString => Some c
  | String _ s' => last s'
  end.

(** [s[:-1]] *)
Fixpoint drop_last (s : string) : string :=
  match s with
  | EmptyString => EmptyString
  | String _ EmptyString => EmptyString
  | String c s' => String c (drop_last s')
  end.

Definition nonempty (s : string) : bool :=
  match s with EmptyString => false | _ => true end.

(** The text does not begin with whitespace. *)
Definition starts_clean (s : string) : Prop :=
  match s with
  | EmptyString => True
  | String c _ => is_space c = false
  end.

End PyStr.

(** ** Association lists with Python's [dict] update rule

    A Python [dict] keeps its keys in insertion order; assigning to a key
    that is present replaces the value where it stands, assigning to a
    new key appends it. *)

Section adict.
Context {K V : Type} `{EqDecision K}.

Fixpoint adict_get (d : list (K * V)) (k : K) : option V :=
  match d with
  | [] => None
  | (k', v) :: d' => if decide (k' = k) then Some v else adict_get d' k
  end.

Fixpoint adict_set (d : list (K * V)) (k : K) (v : V) : list (K * V) :=
  match d with
  | [] => [(k, v)]
  | (k', v') :: d' =>
      if decide (k' = k) then (k', v) :: d' else (k', v') :: adict_set d' k v
  end.

Definition adict_keys (d : list (K * V)) : list K := map fst d.

End adict.

(** ** Runtime values and the store *)

Abbreviation loc := nat (only parsing).

(** The values a validation call handles.  [VFloat] carries the IEEE-754
    binary64 bit pattern; [VDate] and [VTime] are [datetime.date] and
    [datetime.time] objects (the results of the date and time coercions);
    [VRef] points to a list or a dict in the store. *)
Inductive pyval : Type :=
  | VNone
  | VBool (b : bool)
  | VInt (z : Z)
  | VFloat (bits : Z)
  | VStr (s : string)
  | VDate (year month day : Z)
  | VTime (hour minute second microsecond : Z)
  | VRef (l : loc).

#[export] Instance pyval_eq_dec : EqDecision pyval.
Proof. solve_decision. Defined.

(** Keys of the dicts of this development: [None], integers (with
    [True == 1] and [False == 0], as Python hashes them) and strings. *)
Inductive dkey : Type :=
  | KNone
  | KInt (z : Z)
  | KStr (s : string).

#[export] Instance dkey_eq_dec : EqDecision dkey.
Proof. solve_decision. Defined.

Inductive obj : Type :=
  | ODict (d : list (dkey * pyval))
  | OList (xs : list pyval).

Abbreviation heap := (gmap loc obj).

(** ** The directive parser: class [FormatAttr] *)

Module FormatAttr.
Import PyStr.

(** An XML element as the parser uses it: its tag and its attributes. *)
Record element : Type := Element {
  tag : string;
  attrib : list (string * string)
}.

(** [self.format], [self.element] *)
Record t : Type := Build {
  format : option string;
  elem : element
}.

(** [FormatAttr.from_element]: [cls(element.get("format"), element)] *)
Definition from_element (e : element) : t :=
  Build (adict_get (attrib e) "format") e.

(** [self.empty] *)
Definition empty (fa : t) : bool :=
  match format fa with None => true | Some _ => false end.

(** *** Splitting with [re.split]

    Both patterns of the class match exactly one character, and decide
    on that character, the one before it and the text after it.  With
    [is_sep prev c rest] telling whether the pattern matches at [c],
    [re.split] cuts the string at every such character and keeps the
    (possibly empty) pieces in between. *)
Fixpoint re_split (is_sep : option ascii -> ascii -> string -> bool)
    (prev : option ascii) (s : string) : list string :=
  match s with
  | EmptyString => [EmptyString]
  | String c s' =>
      if is_sep prev c s' then EmptyString :: re_split is_sep (Some c) s'
      else
        match re_split is_sep (Some c) s' with
        | piece :: pieces => String c piece :: pieces
        | [] => [String c EmptyString]
        end
  end.

(** The lookahead body [[^{}]*}]: the first brace in the text, if there
    is one, is a closing brace. *)
Fixpoint next_brace_closes (s : string) : bool :=
  match s with
  | EmptyString => false
  | String c s' =>
      if Ascii.eqb c "}" then true
      else if Ascii.eqb c "{" then false
      else next_brace_closes s'
  end.

(** The lookahead body [[^']*'$]: the first single quote in the text is
    its last character, or is followed by one final newline only (where
    [$] also matches). *)
Fixpoint quote_closes_at_end (s : string) : bool :=
  match s with
  | EmptyString => false
  | String c s' =>
      if Ascii.eqb c "'" then
        match s' with
        | EmptyString => true
        | String d EmptyString => Ascii.eqb d "010"
        | _ => false
        end
      else quote_closes_at_end s'
  end.

(** [;(?![^{}]*})] *)
Definition token_sep (prev : option ascii) (c : ascii) (rest : string) : bool :=
  Ascii.eqb c ";" && negb (next_brace_closes rest).

(** [\s(?![^{}]*})|(?<!')\s(?=[^']*'$)]: a whitespace character that
    satisfies the first alternative or the second one. *)
Definition arg_sep (prev : option ascii) (c : ascii) (rest : string) : bool :=
  is_space c && negb (next_brace_closes rest)
  || negb (bool_decide (prev = Some "'"%char)) && is_space c
     && quote_closes_at_end rest.

(** [self.tokens] *)
Definition tokens (fa : t) : list string :=
  match format fa with
  | None => []
  | Some f => List.filter nonempty (re_split token_sep None f)
  end.

(** [t[0] == "{" and t[-1] == "}"], for a non-empty [t]. *)
Definition brace_delimited (t : string) : bool :=
  match t with
  | EmptyString => false
  | String first _ => Ascii.eqb first "{" && bool_decide (last t = Some "}"%char)
  end.

(** [t[1:-1]] *)
Definition inner (t : string) : string :=
  match t with
  | EmptyString => EmptyString
  | String _ r => drop_last r
  end.

Section parsing.
(** The builtin [eval], applied to the text between the braces. *)
Variable eval : string -> result pyval.

(** The body of the loop over the argument tokens. *)
Definition parse_arg (t0 : string) : result pyval :=
  let t := strip t0 in
  match t with
  | EmptyString => Raise IndexError
  | String _ _ =>
      if brace_delimited t then
        match eval (inner t) with
        | Raise ValueError | Raise SyntaxError | Raise NameError =>
            Raise ValueError
        | r => r
        end
      else Ok (VStr t)
  end.

Fixpoint parse_args (ts : list string) : result (list pyval) :=
  match ts with
  | [] => Ok []
  | t :: ts' =>
      a ← parse_arg t;
      args ← parse_args ts';
      Ok (a :: args)
  end.

(** [FormatAttr.parse_token] *)
Definition parse_token (token : string) : result (string * list pyval) :=
  match split_once ":" (strip token) with
  | (only, None) => Ok (strip only, [])
  | (validator, Some args_token) =>
      let tokens := List.filter nonempty (re_split arg_sep None args_token) in
      args ← parse_args tokens;
      Ok (strip validator, args)
  end.

(** The loop of [parse]: [validators[validator_name] = args]. *)
Fixpoint parse_tokens (ts : list string)
    (validators : list (string * list pyval))
    : result (list (string * list pyval)) :=
  match ts with
  | [] => Ok validators
  | token :: ts' =>
      '(validator_name, args) ← parse_token token;
      parse_tokens ts' (adict_set validators validator_name args)
  end.

(** [self.parse()] *)
Definition parse (fa : t) : result (list (string * list pyval)) :=
  match format fa with
  | None => Ok []
  | Some _ => parse_tokens (tokens fa) []
  end.

End parsing.
End FormatAttr.

(** ** Subscripting, assignment and [dict.get] on runtime values *)

Module Store.

(** The dict key a value stands for.  Lists and dicts are unhashable;
    floats, dates and times as keys are outside this development. *)
Definition as_key (k : pyval) : result dkey :=
  match k with
  | VNone => Ok KNone
  | VBool b => Ok (KInt (if b then 1 else 0))
  | VInt z => Ok (KInt z)
  | VStr s => Ok (KStr s)
  | VRef _ => Raise TypeError
  | VFloat _ | VDate _ _ _ | VTime _ _ _ _ => Unmodelled
  end.

(** The position a list or string index denotes: [0 <= i < len] counts
    from the front, [-len <= i < 0] from the back. *)
Definition norm_index (len : nat) (i : Z) : option nat :=
  if ((0 <=? i) && (i <? Z.of_nat len))%Z then Some (Z.to_nat i)
  else if ((- Z.of_nat len <=? i) && (i <? 0))%Z
  then Some (Z.to_nat (Z.of_nat len + i))
  else None.

(** A sequence index must be an [int] ([bool] is one). *)
Definition as_index (k : pyval) : result Z :=
  match k with
  | VInt z => Ok z
  | VBool b => Ok (if b then 1 else 0)
  | _ => Raise TypeError
  end.

Fixpoint string_nth (s : string) (n : nat) : option ascii :=
  match s, n with
  | EmptyString, _ => None
  | String c _, O => Some c
  | String _ s', S n' => string_nth s' n'
  end.

(** [container[key]] *)
Definition getitem (container key : pyval) (h : heap) : result pyval :=
  match container with
  | VRef l =>
      match h !! l with
      | Some (ODict d) =>
          k ← as_key key;
          match adict_get d k with
          | Some v => Ok v
          | None => Raise KeyError
          end
      | Some (OList xs) =>
          i ← as_index key;
          match norm_index (length xs) i with
          | Some n =>
              match xs !! n with
              | Some v => Ok v
              | None => Raise IndexError
              end
          | None => Raise IndexError
          end
      | None => Unmodelled
      end
  | VStr s =>
      i ← as_index key;
      match norm_index (String.length s) i with
      | Some n =>
          match string_nth s n with
          | Some c => Ok (VStr (String c EmptyString))
          | None => Raise IndexError
          end
      | None => Raise IndexError
      end
  | _ => Raise TypeError
  end.

(** [container[key] = value], in place. *)
Definition setitem (container key value : pyval) (h : heap) : result heap :=
  match container with
  | VRef l =>
      match h !! l with
      | Some (ODict d) =>
          k ← as_key key;
          Ok (<[l := ODict (adict_set d k value)]> h)
      | Some (OList xs) =>
          i ← as_index key;
          match norm_index (length xs) i with
          | Some n => Ok (<[l := OList (<[n := value]> xs)]> h)
          | None => Raise IndexError
          end
      | None => Unmodelled
      end
  | _ => Raise TypeError
  end.

(** [value.get(key, None)]: only a dict has the method. *)
Definition py_get (value : pyval) (key : string) (h : heap) : result pyval :=
  match value with
  | VRef l =>
      match h !! l with
      | Some (ODict d) => Ok (default VNone (adict_get d (KStr key)))
      | Some (OList _) => Raise AttributeError
      | None => Unmodelled
      end
  | _ => Raise AttributeError
  end.

End Store.

(** ** Builtins and collaborators the module calls *)

(** A [datetime.datetime] object, as [strptime] returns it. *)
Record datetime : Type := Datetime {
  year : Z; month : Z; day : Z;
  hour : Z; minute : Z; second : Z; microsecond : Z
}.

(** [dt.date()] and [dt.time()] *)
Definition date_of (dt : datetime) : pyval := VDate (year dt) (month dt) (day dt).
Definition time_of (dt : datetime) : pyval :=
  VTime (hour dt) (minute dt) (second dt) (microsecond dt).

(** The library functions whose result the coercions return as it is:
    the builtin [float] and [datetime.datetime.strptime]. *)
Class Host : Type := {
  py_float : pyval -> result pyval;
  strptime : pyval -> string -> result datetime
}.

(** A validator object of [guardrails.validators].  The engine only
    calls [validate_with_correction(key, value, schema)], which may
    change the store and returns the container to continue with;
    [ChoiceValidator] is the class a choice node instantiates. *)
Class Validator (V : Type) : Type := {
  validate_with_correction : V -> pyval -> pyval -> pyval -> heap -> result (pyval * heap);
  ChoiceValidator : list string -> option string -> V
}.

(** ** The builtin [int] on the values of this development *)

Module PyInt.

Definition digit_value (c : ascii) : option Z :=
  let n := nat_of_ascii c in
  if ((48 <=? n) && (n <=? 57))%nat then Some (Z.of_nat (n - 48)) else None.

(** Decimal digits, with single underscores allowed between digits. *)
Fixpoint digits (s : string) (acc : Z) (after_digit : bool) : option Z :=
  match s with
  | EmptyString => if after_digit then Some acc else None
  | String c s' =>
      match digit_value c with
      | Some d => digits s' (10 * acc + d) true
      | None =>
          if Ascii.eqb c "_" && after_digit then digits s' acc false else None
      end
  end.

(** The whitespace [int] skips around the number: the C [isspace]
    characters, NEL and the no-break space (not the separators 28 to
    31, which [str.strip] removes). *)
Definition is_space (c : ascii) : bool :=
  let n := nat_of_ascii c in
  ((9 <=? n) && (n <=? 13) || (n =? 32) || (n =? 133) || (n =? 160))%nat.

Fixpoint lstrip (s : string) : string :=
  match s with
  | String c s' => if is_space c then lstrip s' else s
  | EmptyString => EmptyString
  end.

Fixpoint rstrip (s : string) : string :=
  match s with
  | EmptyString => EmptyString
  | String c s' =>
      match rstrip s' with
      | EmptyString => if is_space c then EmptyString else String c EmptyString
      | r => String c r
      end
  end.

(** [int(s)] for a string: surrounding whitespace, an optional sign and
    the digits. *)
Definition of_str (s : string) : result pyval :=
  let body := rstrip (lstrip s) in
  let '(neg, ds) :=
    match body with
    | String "-" r => (true, r)
    | String "+" r => (false, r)
    | _ => (false, body)
    end in
  match digits ds 0 false with
  | Some z => Ok (VInt (if neg then - z else z))
  | None => Raise ValueError
  end.

(** [int(v)]; the truncation of a float is not described here. *)
Definition py_int (v : pyval) : result pyval :=
  match v with
  | VStr s => of_str s
  | VInt z => Ok (VInt z)
  | VBool b => Ok (VInt (if b then 1 else 0))
  | VFloat _ => Unmodelled
  | VNone | VDate _ _ _ | VTime _ _ _ _ | VRef _ => Raise TypeError
  end.

End PyInt.

(** ** Schema nodes *)

(** The registered scalar classes.  A [TDate] node carries its
    [date_format] attribute; a [TTime] node carries [time_format] and,
    when one has been assigned to the instance, a [date_format]
    attribute as well. *)
Inductive scalar_type : Type :=
  | TString
  | TInteger
  | TFloat
  | TBoolean
  | TDate (date_format : string)
  | TTime (time_format : string) (date_format : option string)
  | TEmail
  | TURL
  | TPercentage.

(** The schema tree.  [children] is the node's [_children] dict, in
    insertion order.  A choice node has no validator list of its own:
    its [validators] property builds one from the case names and the
    [on-fail-choice] attribute. *)
#[warnings="-register-all"]
Inductive node (V : Type) : Type :=
  | Scalar (ty : scalar_type) (validators : list V)
  | TList (validators : list V) (children : list (string * node V))
  | TObject (validators : list V) (children : list (string * node V))
  | TChoice (on_fail : option string) (children : list (string * node V))
  | TCase (validators : list V) (children : list (string * node V)).

Arguments Scalar {V} ty validators.
Arguments TList {V} validators children.
Arguments TObject {V} validators children.
Arguments TChoice {V} on_fail children.
Arguments TCase {V} validators children.

(** ** Coercion: the [from_str] methods *)

Section coercion.
Context `{Host}.

(** [Boolean.from_str] *)
Definition Boolean_from_str (s : pyval) : result pyval :=
  match s with
  | VNone => Ok VNone
  | VBool b => Ok (VBool b)
  | VStr str =>
      if bool_decide (PyStr.lower str = "true") then Ok (VBool true)
      else if bool_decide (PyStr.lower str = "false") then Ok (VBool false)
      else Raise ValueError
  | _ => Raise AttributeError
  end.

(** [from_str] of each scalar class; [String], [Email], [URL] and
    [Percentage] return the argument. *)
Definition from_str (ty : scalar_type) (s : pyval) : result pyval :=
  match ty with
  | TString | TEmail | TURL | TPercentage => Ok s
  | TInteger =>
      match s with VNone => Ok VNone | _ => PyInt.py_int s end
  | TFloat =>
      match s with VNone => Ok VNone | _ => py_float s end
  | TBoolean => Boolean_from_str s
  | TDate date_format =>
      match s with
      | VNone => Ok VNone
      | _ => date_of <$> strptime s date_format
      end
  | TTime time_format _ =>
      match s with
      | VNone => Ok VNone
      | _ => time_of <$> strptime s time_format
      end
  end.

End coercion.

(** ** Validation: the [validate] methods *)

Section validation.
Context `{Host} {V : Type} `{Validator V}.
Import Store.

(** [for validator in self.validators:
       schema = validator.validate_with_correction(key, value, schema)] *)
Fixpoint run_validators (vs : list V) (key value schema : pyval) (h : heap)
    : result (pyval * heap) :=
  match vs with
  | [] => Ok (schema, h)
  | validator :: vs' =>
      '(schema, h) ← validate_with_correction validator key value schema h;
      run_validators vs' key value schema h
  end.

(** [DataType.validate], for a node whose [from_str] is [coerce]. *)
Definition DataType_validate (coerce : pyval -> result pyval) (vs : list V)
    (key value schema : pyval) (h : heap) : result (pyval * heap) :=
  value ← coerce value;
  run_validators vs key value schema h.

(** [Choice.validators] *)
Definition Choice_validators (on_fail : option string)
    (children : list (string * node V)) : list V :=
  [ChoiceValidator (adict_keys children) on_fail].

(** [for i, item in enumerate(value): value = body(i, item, value)] over
    a string: its characters, one by one; the string cannot change. *)
Fixpoint enumerate_str (body : pyval -> pyval -> pyval -> heap -> result (pyval * heap))
    (s : string) (i : nat) (value : pyval) (h : heap) : result (pyval * heap) :=
  match s with
  | EmptyString => Ok (value, h)
  | String c s' =>
      '(value, h) ← body (VInt (Z.of_nat i)) (VStr (String c EmptyString)) value h;
      enumerate_str body s' (S i) value h
  end.

(** The same loop over the list stored at [l].  The list iterator looks
    at the list as it is when the next item is asked for, so the loop
    sees what the body did to it; [fuel] bounds the number of items. *)
Fixpoint enumerate_list (body : pyval -> pyval -> pyval -> heap -> result (pyval * heap))
    (fuel : nat) (l : loc) (i : nat) (value : pyval) (h : heap)
    : result (pyval * heap) :=
  match h !! l with
  | Some (OList xs) =>
      match xs !! i with
      | None => Ok (value, h)
      | Some item =>
          match fuel with
          | O => OutOfFuel
          | S fuel' =>
              '(value, h) ← body (VInt (Z.of_nat i)) item value h;
              enumerate_list body fuel' l (S i) value h
          end
      end
  | _ => Unmodelled
  end.

(** [enumerate(value)]: lists and strings are iterated; a dict would be
    iterated over its keys, which is not described here; the other
    values are not iterable. *)
Definition enumerate (body : pyval -> pyval -> pyval -> heap -> result (pyval * heap))
    (fuel : nat) (value : pyval) (h : heap) : result (pyval * heap) :=
  match value with
  | VStr s => enumerate_str body s 0 value h
  | VRef l =>
      match h !! l with
      | Some (OList _) => enumerate_list body fuel l 0 value h
      | _ => Unmodelled
      end
  | _ => Raise TypeError
  end.

(** [node.validate(key, value, schema)], by cases on the class of the
    node.  The result is the returned container and the store left
    behind. *)
Fixpoint validate (fuel : nat) (n : node V) (key value schema : pyval) (h : heap)
    {struct n} : result (pyval * heap) :=
  match n with
  | Scalar ty validators =>
      (* DataType.validate *)
      DataType_validate (from_str ty) validators key value schema h
  | TList validators children =>
      '(schema, h) ← run_validators validators key value schema h;
      match children with
      | [] => Ok (schema, h)
      | (_, item_type) :: _ =>
          '(_, h) ← enumerate (validate fuel item_type) fuel value h;
          Ok (schema, h)
      end
  | TObject validators children =>
      '(schema, h) ← run_validators validators key value schema h;
      match children with
      | [] => Ok (schema, h)
      | _ :: _ =>
          '(value, h) ←
            (fix items (cs : list (string * node V)) (value : pyval) (h : heap)
                 : result (pyval * heap) :=
               match cs with
               | [] => Ok (value, h)
               | (child_key, child_data_type) :: cs' =>
                   fetched ← py_get value child_key h;
                   '(value, h) ←
                     validate fuel child_data_type (VStr child_key) fetched value h;
                   items cs' value h
               end) children value h;
          h ← setitem schema key value h;
          Ok (schema, h)
      end
  | TChoice on_fail children =>
      (* super().validate(key, value, schema): the result is dropped *)
      '(_, h) ← DataType_validate Ok (Choice_validators on_fail children)
                  key value schema h;
      let selected_key := value in
      selected_value ← getitem schema selected_key h;
      '(_, h) ←
        (fix lookup (cs : list (string * node V)) : result (pyval * heap) :=
           match cs with
           | [] => _ ← as_key selected_key; Raise KeyError
           | (name, child) :: cs' =>
               if bool_decide (selected_key = VStr name)
               then validate fuel child selected_key selected_value schema h
               else lookup cs'
           end) children;
      h ← setitem schema key value h;
      Ok (schema, h)
  | TCase _ children =>
      match children with
      | [] => Raise IndexError
      | (_, child) :: _ =>
          '(_, h) ← validate fuel child key value schema h;
          h ← setitem schema key value h;
          Ok (schema, h)
      end
  end.

End validation.

(** ** The validator pass, in the words of the specification

    "Apply every bound validator in directive order, each receiving
    [(key, value, container)] and returning a possibly corrected
    container": a left fold over the bound validators, which starts
    from the container and the store as given; once a validator has
    failed, the failure is the result.  This definition follows the
    specification, for comparison with [run_validators], the loop of
    the source. *)
Definition apply_bound_validators {V : Type} `{Validator V} (vs : list V)
    (key value container : pyval) (h : heap) : result (pyval * heap) :=
  foldl (fun done validator =>
           '(container, h) ← done;
           validate_with_correction validator key value container h)
        (Ok (container, h)) vs.

(** ** Binding the parsed directive: [FormatAttr.get_validators] *)

(** The two tables of [guardrails.validators]: the validator names that
    are registered for an element tag, and the class registered under a
    validator name, called as [validator( *args, on_fail=on_fail)]. *)
Class Catalog (V : Type) : Type := {
  types_to_validators : string -> result (list string);
  validators_registry : string -> result (list pyval -> option string -> result V)
}.

Module Binding.
Import FormatAttr.

Section binding.
Context {V : Type} `{Catalog V}.
Variable eval : string -> result pyval.

(** The loop of [get_validators] over the parsed entries, with the two
    lists it appends to. *)
Fixpoint bind_entries (strict : bool) (e : element)
    (parsed : list (string * list pyval))
    (_validators : list V) (_unregistered_validators : list string)
    : result (list V * list string) :=
  match parsed with
  | [] => Ok (_validators, _unregistered_validators)
  | (validator_name, args) :: parsed' =>
      registered ← types_to_validators (tag e);
      if negb (bool_decide (validator_name ∈ registered)) then
        if strict then Raise ValueError
        else bind_entries strict e parsed' _validators
               (_unregistered_validators ++ [validator_name])
      else
        validator ← validators_registry validator_name;
        let on_fail := adict_get (attrib e) ("on-fail-" ++ validator_name) in
        v ← validator args on_fail;
        bind_entries strict e parsed' (_validators ++ [v]) _unregistered_validators
  end.

(** [self.get_validators(strict)]: on success the two lists are stored
    in [self._validators] and [self._unregistered_validators], and the
    first one is returned. *)
Definition get_validators (fa : FormatAttr.t) (strict : bool)
    : result (list V * list string) :=
  parsed ← parse eval fa;
  bind_entries strict (elem fa) parsed [] [].

End binding.
End Binding.

(** ** Construction of date and time nodes *)

Module Construct.
Import FormatAttr.

(** [Date.__init__]: [self.date_format = "%Y-%m-%d"] *)
Definition Date_init : scalar_type := TDate "%Y-%m-%d".

(** [Time.__init__]: [self.time_format = "%H:%M:%S"] *)
Definition Time_init : scalar_type := TTime "%H:%M:%S" None.

(** [datatype.date_format = v].  On a date or time instance the
    attribute is kept; the other scalar classes never read it. *)
Definition set_date_format (datatype : scalar_type) (v : string) : scalar_type :=
  match datatype with
  | TDate _ => TDate v
  | TTime time_format _ => TTime time_format (Some v)
  | other => other
  end.

Section from_xml.
(** The inherited class method, called as
    [super().from_xml(element, strict)]: it fails or returns the
    instance it has built (through the class's [__init__]). *)
Variable super_from_xml : element -> bool -> result scalar_type.

(** [Date.from_xml] *)
Definition Date_from_xml (e : element) (strict : bool) : result scalar_type :=
  datatype ← super_from_xml e strict;
  match adict_get (attrib e) "date-format" with
  | Some v => Ok (set_date_format datatype v)
  | None => Ok datatype
  end.

(** [Time.from_xml] *)
Definition Time_from_xml (e : element) (strict : bool) : result scalar_type :=
  datatype ← super_from_xml e strict;
  match adict_get (attrib e) "time-format" with
  | Some v => Ok (set_date_format datatype v)
  | None => Ok datatype
  end.

End from_xml.

End Construct.

(** ** The builtin [eval] on integer arithmetic

    [parse_token] hands the text between braces to [eval], which accepts
    any Python expression.  The directive parser is stated for an
    arbitrary [eval]; this module gives the function on the expressions
    built from decimal integer literals, [+], [-], [*] and parentheses,
    and answers [Unmodelled] on any other character and on the forms
    that mean something else in Python (a power [**], an empty pair of
    parentheses, a call). *)

Module Arith.

Inductive tok : Type :=
  | TNum (z : Z)
  | TPlus
  | TMinus
  | TStar
  | TLParen
  | TRParen.

(** The digits at the front of the text, and what follows them. *)
Fixpoint span_digits (s : string) : list Z * string :=
  match s with
  | EmptyString => ([], EmptyString)
  | String c s' =>
      match PyInt.digit_value c with
      | Some d => let '(ds, rest) := span_digits s' in (d :: ds, rest)
      | None => ([], s)
      end
  end.

Definition number (ds : list Z) : Z := fold_left (fun acc d => 10 * acc + d) ds 0.

(** A literal with a leading zero is accepted only when it is zero. *)
Definition literal_ok (ds : list Z) : bool :=
  match ds with
  | 0 :: _ :: _ => bool_decide (number ds = 0)
  | _ => true
  end.

Fixpoint lex (fuel : nat) (s : string) : result (list tok) :=
  match fuel with
  | O => OutOfFuel
  | S fuel' =>
      match s with
      | EmptyString => Ok []
      | String c s' =>
          if Ascii.eqb c " " || Ascii.eqb c "009" then lex fuel' s'
          else if Ascii.eqb c "+" then cons TPlus <$> lex fuel' s'
          else if Ascii.eqb c "-" then cons TMinus <$> lex fuel' s'
          else if Ascii.eqb c "*" then
            match s' with
            | String "*" _ => Unmodelled
            | _ => cons TStar <$> lex fuel' s'
            end
          else if Ascii.eqb c "(" then cons TLParen <$> lex fuel' s'
          else if Ascii.eqb c ")" then cons TRParen <$> lex fuel' s'
          else
            match span_digits s with
            | ([], _) => Unmodelled
            | (ds, rest) =>
                if literal_ok ds then cons (TNum (number ds)) <$> lex fuel' rest
                else Raise SyntaxError
            end
      end
  end.

(** Recursive descent: sums of products of signed atoms. *)
Fixpoint expr (fuel : nat) (ts : list tok) : result (Z * list tok) :=
  match fuel with
  | O => OutOfFuel
  | S fuel' =>
      '(v, rest) ← term fuel' ts;
      expr_rest fuel' v rest
  end
with expr_rest (fuel : nat) (acc : Z) (ts : list tok) : result (Z * list tok) :=
  match fuel with
  | O => OutOfFuel
  | S fuel' =>
      match ts with
      | TPlus :: ts' =>
          '(v, rest) ← term fuel' ts';
          expr_rest fuel' (acc + v) rest
      | TMinus :: ts' =>
          '(v, rest) ← term fuel' ts';
          expr_rest fuel' (acc - v) rest
      | _ => Ok (acc, ts)
      end
  end
with term (fuel : nat) (ts : list tok) : result (Z * list tok) :=
  match fuel with
  | O => OutOfFuel
  | S fuel' =>
      '(v, rest) ← factor fuel' ts;
      term_rest fuel' v rest
  end
with term_rest (fuel : nat) (acc : Z) (ts : list tok) : result (Z * list tok) :=
  match fuel with
  | O => OutOfFuel
  | S fuel' =>
      match ts with
      | TStar :: ts' =>
          '(v, rest) ← factor fuel' ts';
          term_rest fuel' (acc * v) rest
      | _ => Ok (acc, ts)
      end
  end
with factor (fuel : nat) (ts : list tok) : result (Z * list tok) :=
  match fuel with
  | O => OutOfFuel
  | S fuel' =>
      match ts with
      | TNum z :: ts' => Ok (z, ts')
      | TMinus :: ts' =>
          '(v, rest) ← factor fuel' ts';
          Ok (- v, rest)
      | TPlus :: ts' => factor fuel' ts'
      | TLParen :: ts' =>
          match ts' with
          | TRParen :: _ => Unmodelled
          | _ =>
              '(v, rest) ← expr fuel' ts';
              match rest with
              | TRParen :: rest' => Ok (v, rest')
              | TLParen :: _ => Unmodelled
              | _ => Raise SyntaxError
              end
          end
      | _ => Raise SyntaxError
      end
  end.

(** [eval(s)] *)
Definition eval (s : string) : result pyval :=
  ts ← lex (S (String.length s)) s;
  '(v, rest) ← expr (4 * length ts + 4) ts;
  match rest with
  | [] => Ok (VInt v)
  | TLParen :: _ => Unmodelled
  | _ => Raise SyntaxError
  end.

End Arith.

(** ** The loops of [validate] as functions of their own *)

Section loops.
Context `{Host} {V : Type} `{Validator V}.
Import Store.

(** The loop of [Object.validate] over the declared children. *)
Fixpoint Object_items (fuel : nat) (cs : list (string * node V))
    (value : pyval) (h : heap) : result (pyval * heap) :=
  match cs with
  | [] => Ok (value, h)
  | (child_key, child_data_type) :: cs' =>
      fetched ← py_get value child_key h;
      '(value, h) ← validate fuel child_data_type (VStr child_key) fetched value h;
      Object_items fuel cs' value h
  end.

(** [self._children[selected_key].validate(selected_key, selected_value,
    schema)] in [Choice.validate]. *)
Fixpoint Choice_case (fuel : nat) (cs : list (string * node V))
    (selected_key selected_value schema : pyval) (h : heap)
    : result (pyval * heap) :=
  match cs with
  | [] => _ ← as_key selected_key; Raise KeyError
  | (name, child) :: cs' =>
      if bool_decide (selected_key = VStr name)
      then validate fuel child selected_key selected_value schema h
      else Choice_case fuel cs' selected_key selected_value schema h
  end.

End loops.

(** ** Nodes without bound validators *)

(** No validator is bound to the node or to a node below it.  A choice
    node always has the validator its [validators] property builds. *)
Fixpoint no_validators {V : Type} (n : node V) : Prop :=
  match n with
  | Scalar _ vs => vs = []
  | TList vs cs | TObject vs cs | TCase vs cs =>
      vs = [] /\
      (fix all (cs : list (string * node V)) : Prop :=
         match cs with
         | [] => True
         | (_, c) :: cs' => no_validators c /\ all cs'
         end) cs
  | TChoice _ _ => False
  end.

(** The node is a scalar without bound validators. *)
Definition plain_scalar {V : Type} (n : node V) : Prop :=
  match n with
  | Scalar _ [] => True
  | _ => False
  end.

(** ** Growth of the store

    [heap_le h h'] says that [h'] has the objects of [h], with the same
    lists, and with dicts that differ at most by entries [key: None]
    under keys that were absent. *)

Definition dict_le (d d' : list (dkey * pyval)) : Prop :=
  forall k,
    match adict_get d k with
    | Some v => adict_get d' k = Some v
    | None => adict_get d' k = None \/ adict_get d' k = Some VNone
    end.

Definition obj_le (o o' : obj) : Prop :=
  match o, o' with
  | OList xs, OList xs' => xs = xs'
  | ODict d, ODict d' => dict_le d d'
  | _, _ => False
  end.

Definition heap_le (h h' : heap) : Prop :=
  forall l : loc,
    match h !! l with
    | Some o => exists o', h' !! l = Some o' /\ obj_le o o'
    | None => h' !! l = None
    end.

(** The container has the value under the key, or it is a dict without
    the key and the value is [None]: what [value.get(key, None)] returns
    for the container, as in the calls an object node makes. *)
Definition holds (schema key value : pyval) (h : heap) : Prop :=
  Store.getitem schema key h = Ok value
  \/ (value = VNone
      /\ exists l d k,
           schema = VRef l /\ h !! l = Some (ODict d)
           /\ Store.as_key key = Ok k /\ adict_get d k = None).

(** The nodes whose [validate] ends with [schema[key] = value]. *)
Definition writes_key {V : Type} (n : node V) : Prop :=
  match n with
  | TObject _ (_ :: _) | TCase _ _ | TChoice _ _ => True
  | _ => False
  end.

(** A call settles when, started on a container that holds the value,
    a successful run returns the container it was given, only grows the
    store, and leaves a store on which (and on every larger one) the
    same call changes nothing. *)
Definition settling (body : pyval -> pyval -> pyval -> heap -> result (pyval * heap))
    : Prop :=
  forall key value schema h schema' h',
    holds schema key value h ->
    body key value schema h = Ok (schema', h') ->
    schema' = schema /\ heap_le h h'
    /\ forall h2, heap_le h' h2 -> body key value schema h2 = Ok (schema, h2).

(** ** Containers nothing refers to *)

(** The values stored in an object. *)
Definition refs_of (o : obj) : list pyval :=
  match o with
  | ODict d => map snd d
  | OList xs => xs
  end.

(** No object of the store has the object at [lc] among its values. *)
Definition unreferenced (lc : loc) (h : heap) : Prop :=
  forall l o, h !! l = Some o -> VRef lc ∉ refs_of o.

(** The container is an object of its own: it is not the value, and
    nothing in the store refers to it. *)
Definition detached (schema value : pyval) (h : heap) : Prop :=
  exists lc, schema = VRef lc /\ value <> VRef lc /\ unreferenced lc h.

(** A call is framed by [lc] when, on a value other than that object
    and in a store that does not refer to it, a successful run returns
    its container, still leaves the object unreferenced, and runs the
    same way whatever the object holds, provided that the value is
    already under the key when the container is that very object. *)
Definition framed (lc : loc) (needs_key : Prop)
    (body : pyval -> pyval -> pyval -> heap -> result (pyval * heap)) : Prop :=
  forall key value schema h schema' h',
    value <> VRef lc ->
    unreferenced lc h ->
    body key value schema h = Ok (schema', h') ->
    schema' = schema /\ unreferenced lc h'
    /\ forall o',
         (schema = VRef lc -> needs_key ->
          Store.getitem (VRef lc) key {[ lc := o' ]} = Ok value) ->
         body key value schema (<[lc := o']> h) = Ok (schema, <[lc := o']> h').

(** ** Sample collaborators

    Concrete instances of the interfaces above, for running the engine
    on sample inputs. *)

Module Sample.

(** Validators with the three behaviours a validator can show: return
    the container as it is; store the value under the key and return the
    container; fail.  [OneOf] passes when the value is one of the given
    strings, [RejectKey] fails on one key only. *)
Inductive validator : Type :=
  | Pass
  | StoreValue
  | OneOf (choices : list string)
  | RejectKey (k : pyval).

Definition run (v : validator) (key value schema : pyval) (h : heap)
    : result (pyval * heap) :=
  match v with
  | Pass => Ok (schema, h)
  | StoreValue => h' ← Store.setitem schema key value h; Ok (schema, h')
  | OneOf choices =>
      match value with
      | VStr s =>
          if bool_decide (s ∈ choices) then Ok (schema, h)
          else Raise (OtherError "EventDetail")
      | _ => Raise (OtherError "EventDetail")
      end
  | RejectKey k =>
      if bool_decide (key = k) then Raise (OtherError "EventDetail")
      else Ok (schema, h)
  end.

#[global] Instance validators : Validator validator := {
  validate_with_correction := run;
  ChoiceValidator choices _ := OneOf choices
}.

(** A host on which [float] and [strptime] are not described. *)
#[global] Instance host : Host := {
  py_float _ := Unmodelled;
  strptime _ _ := Unmodelled
}.

(** A catalog with two validators for [string] elements. *)
#[global] Instance catalog : Catalog validator := {
  types_to_validators tag :=
    if bool_decide (tag = "string") then Ok ["pass"; "one-of"] else Ok [];
  validators_registry name :=
    if bool_decide (name = "pass") then Ok (fun _ _ => Ok Pass)
    else if bool_decide (name = "one-of") then
      Ok (fun args _ =>
            Ok (OneOf (omap (fun a => match a with VStr s => Some s | _ => None end) args)))
    else Raise KeyError
}.

(** The engine and the parser on these collaborators. *)
Definition validate := @validate host validator validators.
Definition get_validators := @Binding.get_validators validator catalog Arith.eval.

(** [object(a: string, b: integer)], and a store with an empty container
    at 0 and the mapping [{"a": "hi"}] at 1. *)
Definition object_ab : node validator :=
  TObject [] [("a", Scalar TString []); ("b", Scalar TInteger [])].

Definition store_hi : heap :=
  {[ 0%nat := ODict []; 1%nat := ODict [(KStr "a", VStr "hi")] ]}.

(** A choice with the cases ["x"] (an integer) and ["y"] (a string), and
    the container [{"selector": "x", "x": branch, "y": "7"}] at 0. *)
Definition cases_xy : list (string * node validator) :=
  [("x", TCase [] [("value", Scalar TInteger [])]);
   ("y", TCase [] [("value", Scalar TString [])])].

Definition choice_xy : node validator := TChoice None cases_xy.

Definition store_selector (branch : string) : heap :=
  {[ 0%nat := ODict [(KStr "selector", VStr "x"); (KStr "x", VStr branch);
                     (KStr "y", VStr "7")] ]}.

(** [list(item=integer)] whose item validator fails at position 2, and
    the list [["1", "2", "x"]] at 1. *)
Definition list_of_integers : node validator :=
  TList [Pass] [("item", Scalar TInteger [RejectKey (VInt 2)])].

Definition store_list : heap :=
  {[ 0%nat := ODict []; 1%nat := OList [VStr "1"; VStr "2"; VStr "x"] ]}.

(** An object whose child ["k"] is an object with a case child ["z"],
    and a store in which the mapping at 0 is [{"k": {"z": "1"}}]. *)
Definition object_kz : node validator :=
  TObject [] [("k", TObject [] [("z", TCase [] [("value", Scalar TString [])])])].

Definition store_kz : heap :=
  {[ 0%nat := ODict [(KStr "k", VRef 1)]; 1%nat := ODict [(KStr "z", VStr "1")] ]}.

End Sample.

(** ** Rendering the directive: [FormatAttr.to_prompt] *)

(** The method [to_prompt(with_keywords)] of a validator object. *)
Class Renderer (V : Type) : Type :=
  to_prompt : V -> bool -> result string.

Module Prompt.

Section prompt.
Context {V : Type} `{Renderer V}.

(** [[v.to_prompt(with_keywords) for v in self.validators]] *)
Fixpoint render_all (with_keywords : bool) (vs : list V) : result (list string) :=
  match vs with
  | [] => Ok []
  | v :: vs' =>
      p ← to_prompt v with_keywords;
      ps ← render_all with_keywords vs';
      Ok (p :: ps)
  end.

(** [self.to_prompt(with_keywords)].  [bound] is what [get_validators]
    has stored in [self._validators] and
    [self._unregistered_validators], or [None] when it has not been
    called: the two properties then raise [AttributeError]. *)
Definition FormatAttr_to_prompt (fa : FormatAttr.t)
    (bound : option (list V * list string)) (with_keywords : bool)
    : result string :=
  match FormatAttr.format fa with
  | None => Ok EmptyString
  | Some _ =>
      match bound with
      | None => Raise AttributeError
      | Some (validators, unregistered_validators) =>
          rendered ← render_all with_keywords validators;
          let prompt := String.concat "; " rendered in
          let unreg_prompt := String.concat "; " unregistered_validators in
          Ok (if PyStr.nonempty prompt && PyStr.nonempty unreg_prompt
              then prompt ++ "; " ++ unreg_prompt
              else if PyStr.nonempty unreg_prompt then prompt ++ unreg_prompt
              else prompt)
      end
  end.

End prompt.
End Prompt.

(** ** Building the tree: [registry], [set_children], [from_xml] *)

Module Build.

(** An XML element with its child elements. *)
#[warnings="-register-all"]
Inductive xml : Type :=
  | XML (xtag : string) (xattrib : list (string * string)) (xchildren : list xml).

Definition xtag (e : xml) : string := match e with XML t _ _ => t end.
Definition xattrib (e : xml) : list (string * string) := match e with XML _ a _ => a end.
Definition xchildren (e : xml) : list xml := match e with XML _ _ c => c end.

(** The classes of the module: the base class and the registered ones. *)
Inductive cls : Type :=
  | CDataType
  | CString | CInteger | CFloat | CBoolean | CDate | CTime
  | CEmail | CURL | CPercentage
  | CList | CObject | CChoice | CCase | CPydantic.

#[export] Instance cls_eq_dec : EqDecision cls.
Proof. solve_decision. Defined.

(** [registry], as the [@register_type] decorators fill it. *)
Definition registry : list (string * cls) :=
  [("string", CString); ("integer", CInteger); ("float", CFloat);
   ("bool", CBoolean); ("date", CDate); ("time", CTime); ("email", CEmail);
   ("url", CURL); ("percentage", CPercentage); ("list", CList);
   ("object", CObject); ("choice", CChoice); ("case", CCase);
   ("pydantic", CPydantic)].

(** [registry[tag]] *)
Definition registry_get (tag : string) : result cls :=
  match adict_get registry tag with
  | Some c => Ok c
  | None => Raise KeyError
  end.

(** [child.attrib["name"]] *)
Definition attrib_name (e : xml) : result string :=
  match adict_get (xattrib e) "name" with
  | Some name => Ok name
  | None => Raise KeyError
  end.

Section set_children.
Context {V : Type}.
(** [child_data_type.from_xml(child)], the class method of the class
    found in the registry. *)
Variable from_xml : cls -> xml -> result (node V).

(** [ScalarType.set_children]: the first child element raises. *)
Definition ScalarType_set_children (element : xml)
    (_children : list (string * node V)) : result (list (string * node V)) :=
  match xchildren element with
  | [] => Ok _children
  | _ :: _ => Raise ValueError
  end.

(** The loop of [List.set_children], [idx] counting from 1. *)
Fixpoint List_set_children_from (idx : nat) (children : list xml)
    (_children : list (string * node V)) : result (list (string * node V)) :=
  match children with
  | [] => Ok _children
  | child :: rest =>
      if (1 <? idx)%nat then Raise ValueError
      else
        child_data_type ← registry_get (xtag child);
        item ← from_xml child_data_type child;
        List_set_children_from (S idx) rest (adict_set _children "item" item)
  end.

(** [List.set_children] *)
Definition List_set_children (element : xml)
    (_children : list (string * node V)) : result (list (string * node V)) :=
  List_set_children_from 1 (xchildren element) _children.

(** The loop of [Object.set_children]:
    [self._children[child.attrib["name"]] = child_data_type.from_xml(child)].
    The right-hand side is evaluated before the subscript. *)
Fixpoint Object_set_children_loop (children : list xml)
    (_children : list (string * node V)) : result (list (string * node V)) :=
  match children with
  | [] => Ok _children
  | child :: rest =>
      child_data_type ← registry_get (xtag child);
      built ← from_xml child_data_type child;
      name ← attrib_name child;
      Object_set_children_loop rest (adict_set _children name built)
  end.

(** [Object.set_children] (and [Pydantic.set_children], which has the
    same body) *)
Definition Object_set_children (element : xml)
    (_children : list (string * node V)) : result (list (string * node V)) :=
  Object_set_children_loop (xchildren element) _children.

(** The loop of [Choice.set_children], with its
    [assert child_data_type == Case]. *)
Fixpoint Choice_set_children_loop (children : list xml)
    (_children : list (string * node V)) : result (list (string * node V)) :=
  match children with
  | [] => Ok _children
  | child :: rest =>
      child_data_type ← registry_get (xtag child);
      if bool_decide (child_data_type = CCase) then
        built ← from_xml child_data_type child;
        name ← attrib_name child;
        Choice_set_children_loop rest (adict_set _children name built)
      else Raise (OtherError "AssertionError")
  end.

(** [Choice.set_children] *)
Definition Choice_set_children (element : xml)
    (_children : list (string * node V)) : result (list (string * node V)) :=
  Choice_set_children_loop (xchildren element) _children.

(** [Case.set_children]: [assert len(element) == 1], then the loop of
    [Object.set_children]. *)
Definition Case_set_children (element : xml)
    (_children : list (string * node V)) : result (list (string * node V)) :=
  if bool_decide (length (xchildren element) = 1%nat)
  then Object_set_children_loop (xchildren element) _children
  else Raise (OtherError "AssertionError").

End set_children.

(** *** Calls

    What Python checks when a function with the parameters [params]
    (after [self] or [cls], none of them keyword-only), of which the
    first [required] have no default, is called with [positional]
    positional arguments and the keyword arguments [keywords]: no
    surplus positional argument, no unknown or doubly given keyword, no
    required parameter left without a value. *)
Definition call_binds (params : list string) (required : nat)
    (positional : nat) (keywords : list string) : bool :=
  (positional <=? length params)%nat
  && forallb (fun k => bool_decide (k ∈ drop positional params)) keywords
  && bool_decide (NoDup keywords)
  && forallb (fun p => bool_decide (p ∈ keywords))
       (drop positional (take required params)).

(** The parameters of [__init__] and the number of required ones.
    [Date], [Time], [Choice] and [Case] define
    [__init__(self, children, format_attr, element)], [Pydantic] takes a
    [model] first, the other classes inherit [DataType.__init__]. *)
Definition init_signature (c : cls) : list string * nat :=
  match c with
  | CDate | CTime | CChoice | CCase => (["children"; "format_attr"; "element"], 3%nat)
  | CPydantic => (["model"; "children"; "format_attr"; "element"], 4%nat)
  | _ => (["name"; "description"; "children"; "value"; "path"; "validators"], 3%nat)
  end.

Section from_xml.
Context {V : Type}.

(** [cls(element_type=..., name=..., description=..., children=...,
    validators=...)] at the end of [DataType.from_xml].  What the
    constructor would build if the call were accepted is not described. *)
Definition construct (c : cls) : result (node V) :=
  let '(params, required) := init_signature c in
  if call_binds params required 0
       ["element_type"; "name"; "description"; "children"; "validators"]
  then Unmodelled
  else Raise TypeError.

(** [DataType.from_xml(element)], the definition that stands (the
    second one of the class body), called on the class [c]; the child
    elements are built with [DataType.from_xml] itself. *)
Fixpoint DataType_from_xml (c : cls) (element : xml) : result (node V) :=
  match element with
  | XML element_type attrib children =>
      match adict_get attrib "name" with
      | None => Raise KeyError
      | Some name =>
          _ ← (fix each (children : list xml) : result (list (node V)) :=
                 match children with
                 | [] => Ok []
                 | child :: rest =>
                     built ← DataType_from_xml CDataType child;
                     others ← each rest;
                     Ok (built :: others)
                 end) children;
          construct c
      end
  end.

(** [super().from_xml(element, strict)] in [Date.from_xml] and
    [Time.from_xml]: a call of [DataType.from_xml(cls, element)] with two
    positional arguments. *)
Definition super_from_xml (element : FormatAttr.element) (strict : bool)
    : result scalar_type :=
  if call_binds ["element"] 1 2 [] then Unmodelled else Raise TypeError.

Definition element_of (e : xml) : FormatAttr.element :=
  FormatAttr.Element (xtag e) (xattrib e).

(** [c.from_xml(element)] for the classes that take their [from_xml]
    from this module's [DataType], [Date] or [Time]; [Pydantic.from_xml]
    consults a model table of another module. *)
Definition from_xml (c : cls) (element : xml) : result (node V) :=
  match c with
  | CDate =>
      ty ← Construct.Date_from_xml super_from_xml
             (element_of element) false;
      Ok (Scalar ty [])
  | CTime =>
      ty ← Construct.Time_from_xml super_from_xml
             (element_of element) false;
      Ok (Scalar ty [])
  | CPydantic => Unmodelled
  | _ => DataType_from_xml c element
  end.

End from_xml.
End Build.

(** ** What validation keeps of the store *)

(** [keeps h h']: the store [h'] has the objects of [h], its lists have
    the lengths they had and its dicts the keys they had. *)
Definition keeps_obj (o o' : obj) : Prop :=
  match o, o' with
  | OList xs, OList xs' => length xs' = length xs
  | ODict d, ODict d' => forall k, is_Some (adict_get d k) -> is_Some (adict_get d' k)
  | _, _ => False
  end.

Definition keeps (h h' : heap) : Prop :=
  forall l : loc,
    match h !! l with
    | Some o => exists o', h' !! l = Some o' /\ keeps_obj o o'
    | None => h' !! l = None
    end.

(** No list of the store has more than [n] items. *)
Definition lists_within (n : nat) (h : heap) : Prop :=
  forall (l : loc) xs, h !! l = Some (OList xs) -> (length xs <= n)%nat.

(** ** Sample renderer and elements *)

Module SampleBuild.

(** How the sample validators render themselves. *)
#[global] Instance renderer : Renderer Sample.validator := fun v with_keywords =>
  match v with
  | Sample.Pass => Ok "pass"
  | Sample.StoreValue => Ok "store-value"
  | Sample.OneOf choices =>
      Ok (if with_keywords then "one-of: choices=" ++ String.concat " " choices
          else "one-of: " ++ String.concat " " choices)
  | Sample.RejectKey _ => Raise (OtherError "NotImplementedError")
  end.

Definition leaf (tag name : string) : Build.xml :=
  Build.XML tag [("name", name)] [].

End SampleBuild.

(** * Properties *)

(** ** The result monad *)

Lemma bind_Ok_inv {A B} (m : result A) (f : A -> result B) (b : B) :
  m ≫= f = Ok b -> exists a, m = Ok a /\ f a = Ok b.
Proof. destruct m; simpl; try discriminate. eauto. Qed.

Tactic Notation "inv_bind" hyp(Hyp) :=
  let a := fresh "a" in
  let Ha := fresh "Ha" in
  apply bind_Ok_inv in Hyp as (a & Ha & Hyp).

Tactic Notation "inv_bind" hyp(Hyp) "as" simple_intropattern(pat) ident(Ha) :=
  apply bind_Ok_inv in Hyp as (pat & Ha & Hyp).

(** ** Association lists *)

Section adict_facts.
Context {K V : Type} `{EqDecision K}.
Implicit Types (d : list (K * V)) (k : K) (v : V).

Lemma adict_get_set_eq d k v : adict_get (adict_set d k v) k = Some v.
Proof.
  induction d as [|[k' v'] d IH]; simpl.
  - by rewrite decide_True.
  - destruct (decide (k' = k)) as [->|Hne]; simpl.
    + by rewrite decide_True.
    + by rewrite decide_False.
Qed.

Lemma adict_get_set_ne d k k' v :
  k <> k' -> adict_get (adict_set d k v) k' = adict_get d k'.
Proof.
  intros Hne. induction d as [|[k0 v0] d IH]; simpl.
  - by rewrite decide_False.
  - destruct (decide (k0 = k)) as [->|Hne0]; simpl.
    + by rewrite !decide_False.
    + by rewrite IH.
Qed.

Lemma adict_set_same d k v : adict_get d k = Some v -> adict_set d k v = d.
Proof.
  induction d as [|[k' v'] d IH]; simpl; [done|].
  destruct (decide (k' = k)) as [->|Hne]; [congruence|].
  intros Hg. by rewrite IH.
Qed.

Lemma adict_set_absent d k v : adict_get d k = None -> adict_set d k v = (d ++ [(k, v)])%list.
Proof.
  induction d as [|[k' v'] d IH]; simpl; [done|].
  destruct (decide (k' = k)); [done|]. intros Hg. by rewrite IH.
Qed.

End adict_facts.

(** ** The store *)

Section store_facts.
Import Store.

Lemma norm_index_lt len i n : norm_index len i = Some n -> (n < len)%nat.
Proof.
  unfold norm_index. repeat case_match; intros; simplify_eq; lia.
Qed.

(** What has just been assigned is what a lookup returns. *)
Lemma getitem_setitem c k v h h' :
  setitem c k v h = Ok h' -> getitem c k h' = Ok v.
Proof.
  unfold setitem, getitem. destruct c; try discriminate.
  destruct (h !! l) as [[d|xs]|] eqn:Hl; try discriminate.
  - intros Hs. inv_bind Hs. simplify_eq. rewrite lookup_insert_eq, Ha. simpl.
    by rewrite adict_get_set_eq.
  - intros Hs. inv_bind Hs. rewrite Ha. simpl.
    destruct (norm_index (length xs) a) as [n|] eqn:Hn; [|discriminate].
    simplify_eq. rewrite lookup_insert_eq, length_insert, Hn.
    apply norm_index_lt in Hn. by rewrite list_lookup_insert_eq.
Qed.

(** Assigning the value that is already there leaves the store alone. *)
Lemma setitem_same c k v h h' :
  getitem c k h = Ok v -> setitem c k v h = Ok h' -> h' = h.
Proof.
  unfold setitem, getitem. destruct c; try discriminate.
  destruct (h !! l) as [[d|xs]|] eqn:Hl; try discriminate.
  - destruct (as_key k) as [dk| | |]; simpl; try discriminate.
    destruct (adict_get d dk) eqn:Hg; [|discriminate].
    intros; simplify_eq. rewrite adict_set_same by done. by apply insert_id.
  - destruct (as_index k) as [i| | |]; simpl; try discriminate.
    destruct (norm_index (length xs) i) as [n|]; [|discriminate].
    destruct (xs !! n) eqn:Hx; [|discriminate].
    intros; simplify_eq. rewrite list_insert_id by done. by apply insert_id.
Qed.

End store_facts.

(** ** Unfolding [validate] *)

Section validate_facts.
Context `{Host} {V : Type} `{Validator V}.
Import Store.
Implicit Types (n : node V) (vs : list V) (cs : list (string * node V)).
Implicit Types (key value schema : pyval) (h : heap).

(** The loop of the source is the pass the specification describes. *)
Lemma run_validators_in_order vs key value schema h :
  run_validators vs key value schema h
  = apply_bound_validators vs key value schema h.
Proof.
  unfold apply_bound_validators. revert schema h.
  induction vs as [|v vs IH]; intros schema h; [done|].
  cbn [run_validators foldl]. cbn [mbind result_bind].
  destruct (validate_with_correction v key value schema h) as [[s1 h1]|e| |];
    cbn [mbind result_bind]; [apply IH|..]; clear IH.
  - induction vs as [|w vs IH]; [done|]. apply IH.
  - induction vs as [|w vs IH]; [done|]. apply IH.
  - induction vs as [|w vs IH]; [done|]. apply IH.
Qed.

Lemma validate_Scalar fuel ty vs key value schema h :
  validate fuel (Scalar ty vs) key value schema h =
  (typed ← from_str ty value; run_validators vs key typed schema h).
Proof. reflexivity. Qed.

Lemma validate_TList fuel vs cs key value schema h :
  validate fuel (TList vs cs) key value schema h =
  ('(schema, h) ← run_validators vs key value schema h;
   match cs with
   | [] => Ok (schema, h)
   | (_, item_type) :: _ =>
       '(_, h) ← enumerate (validate fuel item_type) fuel value h;
       Ok (schema, h)
   end).
Proof. reflexivity. Qed.

Lemma validate_TObject fuel vs cs key value schema h :
  validate fuel (TObject vs cs) key value schema h =
  ('(schema, h) ← run_validators vs key value schema h;
   match cs with
   | [] => Ok (schema, h)
   | _ :: _ =>
       '(value, h) ← Object_items fuel cs value h;
       h ← setitem schema key value h;
       Ok (schema, h)
   end).
Proof.
  simpl. destruct (run_validators vs key value schema h) as [[schema1 h1]| | |];
    [simpl|done..].
  lazymatch goal with
  | |- match cs with [] => _ | _ :: _ => ?f cs value h1 ≫= _ end = _ =>
      assert (Hloop : forall cs value h, f cs value h = Object_items fuel cs value h)
  end.
  { clear. induction cs as [|[ck cn] cs IH]; intros value h; [done|].
    simpl. destruct (py_get value ck h); [simpl|done..].
    destruct (validate fuel cn (VStr ck) a value h) as [[]| | |]; [simpl|done..].
    apply IH. }
  by rewrite Hloop.
Qed.

Lemma validate_TChoice fuel on_fail cs key value schema h :
  validate fuel (TChoice on_fail cs) key value schema h =
  ('(_, h) ← run_validators (Choice_validators on_fail cs) key value schema h;
   selected_value ← getitem schema value h;
   '(_, h) ← Choice_case fuel cs value selected_value schema h;
   h ← setitem schema key value h;
   Ok (schema, h)).
Proof.
  cbn [validate]. unfold DataType_validate. cbn [mbind result_bind].
  destruct (run_validators (Choice_validators on_fail cs) key value schema h)
    as [[schema1 h1]| | |]; [|done..].
  cbn [mbind result_bind].
  destruct (getitem schema value h1) as [selected_value| | |]; [|done..].
  cbn [mbind result_bind].
  lazymatch goal with
  | |- ?f cs ≫= _ = _ =>
      assert (Hloop : forall cs, f cs = Choice_case fuel cs value selected_value schema h1)
  end.
  { clear. induction cs as [|[name c] cs IH]; [done|].
    simpl. case_bool_decide; [done|]. apply IH. }
  by rewrite Hloop.
Qed.

Lemma validate_TCase fuel vs cs key value schema h :
  validate fuel (TCase vs cs) key value schema h =
  match cs with
  | [] => Raise IndexError
  | (_, child) :: _ =>
      '(_, h) ← validate fuel child key value schema h;
      h ← setitem schema key value h;
      Ok (schema, h)
  end.
Proof. reflexivity. Qed.

(** The case a selector names is the child stored under that name. *)
Lemma Choice_case_lookup fuel cs name child selected_value schema h :
  adict_get cs name = Some child ->
  Choice_case fuel cs (VStr name) selected_value schema h =
  validate fuel child (VStr name) selected_value schema h.
Proof.
  induction cs as [|[name' c] cs IH]; simpl; [done|].
  destruct (decide (name' = name)) as [->|Hne].
  - intros [= ->]. by rewrite bool_decide_eq_true_2.
  - intros Hg. rewrite bool_decide_eq_false_2 by congruence. auto.
Qed.

(** A selector that names no case stops the validation. *)
Lemma Choice_case_missing fuel cs name selected_value schema h :
  adict_get cs name = None ->
  Choice_case fuel cs (VStr name) selected_value schema h = Raise KeyError.
Proof.
  induction cs as [|[name' c] cs IH]; simpl; [done|].
  destruct (decide (name' = name)) as [->|Hne]; [done|].
  intros Hg. rewrite bool_decide_eq_false_2 by congruence. auto.
Qed.

(** ** Scalar nodes *)

(** C10. A scalar node without bound validators coerces the value and
    returns the container and the store exactly as it received them:
    the result is the coercion's outcome with the typed value dropped,
    so nothing is written under [key] or any other key, and an error of
    the coercion is the error of the call.  With bound validators, all
    that happens to the container happens in their calls. *)
Theorem scalar_validate_leaves_container fuel ty key value schema h :
  validate fuel (Scalar ty []) key value schema h =
    (_ ← from_str ty value; Ok (schema, h))
  /\ (forall schema' h',
        validate fuel (Scalar ty []) key value schema h = Ok (schema', h') <->
        is_ok (from_str ty value) = true /\ schema' = schema /\ h' = h)
  /\ (forall vs,
        validate fuel (Scalar ty vs) key value schema h =
        (typed ← from_str ty value; run_validators vs key typed schema h)).
Proof.
  split; [reflexivity|]. split; [|reflexivity].
  intros schema' h'. rewrite validate_Scalar. simpl.
  destruct (from_str ty value); simpl; split; intros; destruct_and?;
    simplify_eq; done.
Qed.

(** ** Object nodes *)

(** C9 (amended). An object node with at least one declared child
    finishes by assigning the object, as the loop over the children
    returned it, to [container[key]]: after a successful call the
    returned container holds that object under [key].  With no declared
    child the call is the node's own validators and nothing else. *)
Theorem object_validate_writes_key fuel vs cs key value schema h schema' h' :
  cs <> [] ->
  validate fuel (TObject vs cs) key value schema h = Ok (schema', h') ->
  exists h1 value' h2,
    run_validators vs key value schema h = Ok (schema', h1)
    /\ Object_items fuel cs value h1 = Ok (value', h2)
    /\ setitem schema' key value' h2 = Ok h'
    /\ getitem schema' key h' = Ok value'.
Proof.
  intros Hcs. rewrite validate_TObject. intros Hv.
  inv_bind Hv. destruct a as [schema1 h1].
  destruct cs as [|c cs']; [done|].
  inv_bind Hv. destruct a as [value' h2].
  inv_bind Hv. simplify_eq.
  exists h1, value', h2. eauto using getitem_setitem.
Qed.

Lemma object_validate_no_children fuel vs key value schema h :
  validate fuel (TObject vs []) key value schema h =
  run_validators vs key value schema h.
Proof.
  rewrite validate_TObject. destruct (run_validators vs key value schema h) as [[]| | |]; done.
Qed.

End validate_facts.

Section object_facts.
Context `{Host} {V : Type} `{Validator V}.
Import Store.
Implicit Types (cs : list (string * node V)) (h : heap).

(** A key the dict lacks is fetched as [None]. *)
Lemma py_get_absent l d child_key h :
  h !! l = Some (ODict d) ->
  adict_get d (KStr child_key) = None ->
  py_get (VRef l) child_key h = Ok VNone.
Proof. intros Hl Hd. unfold py_get. by rewrite Hl, Hd. Qed.

(** Children that are scalars without validators leave the object and
    the store as they are. *)
Lemma Object_items_plain fuel cs value h value' h' :
  Forall (fun c => plain_scalar c.2) cs ->
  Object_items fuel cs value h = Ok (value', h') ->
  value' = value /\ h' = h.
Proof.
  intros Hcs. revert value h.
  induction Hcs as [|[ck cn] cs Hc _ IH]; intros value h; simpl.
  - by intros [= -> ->].
  - intros Hv. inv_bind Hv. inv_bind Hv. destruct a0 as [value1 h1].
    destruct cn as [ty [|]| | | |]; try done.
    rewrite validate_Scalar in Ha0. inv_bind Ha0. simpl in Ha0.
    simplify_eq. by apply IH.
Qed.

(** Every coercion maps [None] to [None]. *)
Lemma from_str_None ty : from_str ty VNone = Ok VNone.
Proof. by destruct ty. Qed.

(** On a stored dict, the loop over children that are scalars without
    validators succeeds exactly when every fetched value coerces. *)
Lemma Object_items_plain_iff fuel cs l d h value' h' :
  Forall (fun c => plain_scalar c.2) cs ->
  h !! l = Some (ODict d) ->
  Object_items fuel cs (VRef l) h = Ok (value', h') <->
  Forall (fun c => exists ty,
            c.2 = Scalar ty []
            /\ is_ok (from_str ty (default VNone (adict_get d (KStr c.1)))) = true) cs
  /\ value' = VRef l /\ h' = h.
Proof.
  intros Hcs Hl. induction Hcs as [|[ck cn] cs Hc _ IH].
  - simpl. split; [by intros [= <- <-]|by intros (_ & -> & ->)].
  - destruct cn as [ty [|]| | | |]; try done.
    cbn [Object_items]. unfold py_get. rewrite Hl. cbn [mbind result_bind].
    rewrite validate_Scalar. simpl fst. simpl snd.
    destruct (from_str ty (default VNone (adict_get d (KStr ck)))) as [typed| | |] eqn:Hty;
      cbn [mbind result_bind run_validators].
    + rewrite IH. split.
      * intros (Hall & -> & ->). split; [|done]. constructor; [|done].
        exists ty. simpl. by rewrite Hty.
      * intros (Hall & -> & ->). by apply Forall_cons_1 in Hall as [_ Hall].
    + split; [done|]. intros (Hall & _). apply Forall_cons_1 in Hall as [(ty' & E & Hok) _].
      simpl in E, Hok. simplify_eq. by rewrite Hty in Hok.
    + split; [done|]. intros (Hall & _). apply Forall_cons_1 in Hall as [(ty' & E & Hok) _].
      simpl in E, Hok. simplify_eq. by rewrite Hty in Hok.
    + split; [done|]. intros (Hall & _). apply Forall_cons_1 in Hall as [(ty' & E & Hok) _].
      simpl in E, Hok. simplify_eq. by rewrite Hty in Hok.
Qed.

(** Assigning to another container leaves a dict as it is. *)
Lemma setitem_other schema key value h h' l d :
  Store.setitem schema key value h = Ok h' ->
  schema <> VRef l ->
  h !! l = Some (ODict d) ->
  h' !! l = Some (ODict d).
Proof.
  intros Hset Hs Hl. unfold Store.setitem in Hset. destruct schema; try done.
  destruct (h !! l0) as [[]|] eqn:Hl0; try done.
  - inv_bind Hset. simplify_eq. rewrite lookup_insert_ne; [done|congruence].
  - inv_bind Hset. case_match; simplify_eq.
    rewrite lookup_insert_ne; [done|congruence].
Qed.

End object_facts.

(** C1 (amended). An object node first applies its own validators,
    in order, to the whole value, and then validates its declared
    children in declaration order, each with [(child_key,
    value.get(child_key, None), value)]: the object itself is the
    container, a key the mapping lacks is fetched as [None], and the
    object the child returns is the one the next child is validated
    on; after the last child the object is assigned to
    [container[key]].  The key is written into the object only if the
    child's own [validate] writes it.  When every declared child is a
    scalar without bound validators, the call succeeds exactly when
    every fetched value can be coerced (and the assignment succeeds),
    and then, beyond what the object's own validators did, it changes
    nothing but [container[key]], which receives the object: unless
    the object is its own container, it is left as it was and a key it
    lacked is still absent.  A case child, in contrast, stores the
    fetched [None] under the absent key. *)
Theorem object_validate_children `{Host} {V : Type} `{Validator V}
    fuel key schema h :
  (forall (vs : list V) cs value,
     validate fuel (TObject vs cs) key value schema h =
     ('(schema1, h1) ← apply_bound_validators vs key value schema h;
      validate fuel (TObject [] cs) key value schema1 h1))
  /\ (forall child_key (child : node V) cs value,
        validate fuel (TObject [] ((child_key, child) :: cs)) key value schema h =
        (fetched ← Store.py_get value child_key h;
         '(value1, h1) ← validate fuel child (VStr child_key) fetched value h;
         match cs with
         | [] => h2 ← Store.setitem schema key value1 h1; Ok (schema, h2)
         | _ :: _ => validate fuel (TObject [] cs) key value1 schema h1
         end))
  /\ (forall l d child_key,
        h !! l = Some (ODict d) ->
        adict_get d (KStr child_key) = None ->
        Store.py_get (VRef l) child_key h = Ok VNone)
  /\ (forall (vs : list V) cs l d schema1 h1 schema' h',
        cs <> [] ->
        Forall (fun c => plain_scalar c.2) cs ->
        apply_bound_validators vs key (VRef l) schema h = Ok (schema1, h1) ->
        h1 !! l = Some (ODict d) ->
        (validate fuel (TObject vs cs) key (VRef l) schema h = Ok (schema', h') <->
         Forall (fun c => exists ty,
                   c.2 = Scalar ty []
                   /\ is_ok (from_str ty (default VNone (adict_get d (KStr c.1))))
                      = true) cs
         /\ schema' = schema1
         /\ Store.setitem schema1 key (VRef l) h1 = Ok h')
        /\ (validate fuel (TObject vs cs) key (VRef l) schema h = Ok (schema', h') ->
            schema1 <> VRef l ->
            h' !! l = Some (ODict d)
            /\ forall child_key,
                 adict_get d (KStr child_key) = None ->
                 Store.getitem (VRef l) (VStr child_key) h' = Raise KeyError))
  /\ (forall (vs : list V) name ty l d child_key,
        h !! l = Some (ODict d) ->
        adict_get d (KStr child_key) = None ->
        validate fuel (TObject [] [(child_key, TCase vs [(name, Scalar ty [])])])
          key (VRef l) schema h =
        (h2 ← Store.setitem schema key (VRef l)
                (<[l := ODict (d ++ [(KStr child_key, VNone)])%list]> h);
         Ok (schema, h2))).
Proof.
  assert (Hown : forall (vs : list V) cs value,
    validate fuel (TObject vs cs) key value schema h =
    ('(schema1, h1) ← apply_bound_validators vs key value schema h;
     validate fuel (TObject [] cs) key value schema1 h1)).
  { intros vs cs value. rewrite validate_TObject, run_validators_in_order.
    destruct (apply_bound_validators vs key value schema h) as [[schema1 h1]| | |];
      [|done..].
    cbn [mbind result_bind]. by rewrite validate_TObject. }
  assert (Hstep : forall child_key (child : node V) cs value schema0 h0,
    validate fuel (TObject [] ((child_key, child) :: cs)) key value schema0 h0 =
    (fetched ← Store.py_get value child_key h0;
     '(value1, h1) ← validate fuel child (VStr child_key) fetched value h0;
     match cs with
     | [] => h2 ← Store.setitem schema0 key value1 h1; Ok (schema0, h2)
     | _ :: _ => validate fuel (TObject [] cs) key value1 schema0 h1
     end)).
  { intros child_key child cs value schema0 h0. rewrite validate_TObject.
    cbn [run_validators mbind result_bind Object_items].
    destruct (Store.py_get value child_key h0) as [fetched| | |]; [|done..].
    cbn [mbind result_bind].
    destruct (validate fuel child (VStr child_key) fetched value h0)
      as [[value1 h1]| | |]; [|done..].
    cbn [mbind result_bind]. destruct cs as [|c cs]; [done|].
    by rewrite validate_TObject. }
  split; [exact Hown|]. split; [intros; apply Hstep|].
  split; [intros; by eapply py_get_absent|]. split.
  - intros vs cs l d schema1 h1 schema' h' Hne Hplain Hvs Hl1.
    assert (Hiff :
      validate fuel (TObject vs cs) key (VRef l) schema h = Ok (schema', h') <->
      Forall (fun c => exists ty,
                c.2 = Scalar ty []
                /\ is_ok (from_str ty (default VNone (adict_get d (KStr c.1))))
                   = true) cs
      /\ schema' = schema1
      /\ Store.setitem schema1 key (VRef l) h1 = Ok h').
    { rewrite validate_TObject, run_validators_in_order, Hvs.
      cbn [mbind result_bind]. destruct cs as [|c cs']; [done|]. split.
      - intros Hv. inv_bind Hv as [value1 h2] Hitems.
        apply (Object_items_plain_iff _ _ l d) in Hitems as (Hall & -> & ->);
          [|done..].
        inv_bind Hv as h3 Hset. by injection Hv as <- <-.
      - intros (Hall & -> & Hset).
        assert (Hitems :
          Object_items fuel (c :: cs') (VRef l) h1 = Ok (VRef l, h1))
          by (by apply (Object_items_plain_iff _ _ l d)).
        rewrite Hitems. cbn [mbind result_bind]. by rewrite Hset. }
    split; [exact Hiff|].
    intros (Hall & -> & Hset)%Hiff Hs.
    pose proof (setitem_other _ _ _ _ _ _ _ Hset Hs Hl1) as Hl'.
    split; [done|]. intros ck Hck. unfold Store.getitem. rewrite Hl'. simpl.
    by rewrite Hck.
  - intros vs name ty l d ck Hl Hck. rewrite Hstep.
    erewrite py_get_absent by done. cbn [mbind result_bind].
    rewrite validate_TCase, validate_Scalar, from_str_None.
    cbn [mbind result_bind run_validators Store.setitem Store.as_key].
    rewrite Hl. cbn [mbind result_bind]. by rewrite adict_set_absent.
Qed.

(** ** Choice and case nodes *)

(** C2. A choice node applies its own validator, the one its
    [validators] property builds from the names of the cases, to
    [(key, value, container)]: its failure is the failure of the call,
    the container it returns is dropped, what it did to the store
    stays.  Then the passed value is the selector: the branch value is
    read from [container[value]], it is validated by the case stored
    under the selector, called with [(selector, branch, container)],
    and the call ends with [container[key] = value].  A case node
    validates with its single child and then assigns
    [container[key] = value].  On the sample container the call
    succeeds and leaves ["selector"] at ["x"]; the branch value reaches
    the integer child of case ["x"], whose coercion fails when the
    branch value is not a number; and a selector that is not the name
    of a case is refused by the node's validator, before anything is
    looked up. *)
Theorem choice_validate_selector `{Host} {V : Type} `{Validator V}
    fuel on_fail (cs : list (string * node V)) key schema h :
  (forall name case,
     adict_get cs name = Some case ->
     validate fuel (TChoice on_fail cs) key (VStr name) schema h =
     ('(_, h1) ← validate_with_correction (ChoiceValidator (adict_keys cs) on_fail)
                   key (VStr name) schema h;
      branch ← Store.getitem schema (VStr name) h1;
      '(_, h2) ← validate fuel case (VStr name) branch schema h1;
      h3 ← Store.setitem schema key (VStr name) h2;
      Ok (schema, h3)))
  /\ (forall value r,
        validate_with_correction (ChoiceValidator (adict_keys cs) on_fail)
          key value schema h = r ->
        is_ok r = false ->
        validate fuel (TChoice on_fail cs) key value schema h
        = (r ≫= fun _ => Raise KeyError))
  /\ (forall vs name child rest k v h1,
        validate fuel (TCase vs ((name, child) :: rest)) k v schema h1 =
        ('(_, h2) ← validate fuel child k v schema h1;
         h3 ← Store.setitem schema k v h2;
         Ok (schema, h3)))
  /\ (forall value schema' h',
        validate fuel (TChoice on_fail cs) key value schema h = Ok (schema', h') ->
        schema' = schema /\ Store.getitem schema key h' = Ok value)
  /\ Sample.validate 0 Sample.choice_xy (VStr "selector") (VStr "x") (VRef 0)
       (Sample.store_selector "42")
     = Ok (VRef 0, Sample.store_selector "42")
  /\ Sample.validate 0 Sample.choice_xy (VStr "selector") (VStr "x") (VRef 0)
       (Sample.store_selector "forty-two")
     = Raise ValueError
  /\ Sample.validate 0 Sample.choice_xy (VStr "selector") (VStr "z") (VRef 0)
       (Sample.store_selector "42")
     = Raise (OtherError "EventDetail").
Proof.
  split; [|split].
  - intros name case Hcase. rewrite validate_TChoice. unfold Choice_validators.
    cbn [run_validators]. cbn [mbind result_bind].
    destruct (validate_with_correction _ key (VStr name) schema h)
      as [[s1 h1]| | |]; [|done..].
    cbn [mbind result_bind].
    destruct (Store.getitem schema (VStr name) h1) as [branch| | |]; [|done..].
    cbn [mbind result_bind]. by rewrite (Choice_case_lookup _ _ _ _ _ _ _ Hcase).
  - intros value r <- Hr. rewrite validate_TChoice. unfold Choice_validators.
    cbn [run_validators]. cbn [mbind result_bind].
    by destruct (validate_with_correction _ key value schema h) as [[s1 h1]| | |].
  - split; [reflexivity|]. split; [|repeat split; vm_compute; reflexivity].
    intros value schema' h'. rewrite validate_TChoice. intros Hv.
    inv_bind Hv as [s1 h1] Hvs. inv_bind Hv as branch Hget.
    inv_bind Hv as [s2 h2] Hcase. inv_bind Hv as h3 Hset.
    injection Hv as <- <-. eauto using getitem_setitem.
Qed.

Lemma choice_validate_selector_witness :
  let h := {[ 0%nat := ODict [(KStr "x", VStr "42"); (KStr "y", VStr "7")] ]} in
  Sample.validate 0 Sample.choice_xy (VStr "picked") (VStr "x") (VRef 0) h
  = Ok (VRef 0,
        {[ 0%nat := ODict [(KStr "x", VStr "42"); (KStr "y", VStr "7");
                           (KStr "picked", VStr "x")] ]}).
Proof.
  intros h. unfold Sample.validate, Sample.choice_xy.
  etrans.
  - apply (proj1 (choice_validate_selector (H := Sample.host)
                    (H0 := Sample.validators) 0 None Sample.cases_xy
                    (VStr "picked") (VRef 0) h)
             "x" (TCase [] [("value", Scalar TInteger [])])).
    reflexivity.
  - vm_compute. reflexivity.
Defined.

(** ** List nodes *)

Section list_facts.
Context `{Host} {V : Type} `{Validator V}.

Lemma enumerate_list_step body fuel l i value h xs item :
  h !! l = Some (OList xs) -> xs !! i = Some item ->
  enumerate_list body (S fuel) l i value h =
  ('(value, h) ← body (VInt (Z.of_nat i)) item value h;
   enumerate_list body fuel l (S i) value h).
Proof. intros Hl Hi. simpl. by rewrite Hl, Hi. Qed.

Lemma enumerate_list_stop body fuel l i value h xs :
  h !! l = Some (OList xs) -> xs !! i = None ->
  enumerate_list body fuel l i value h = Ok (value, h).
Proof. intros Hl Hi. destruct fuel; simpl; by rewrite Hl, Hi. Qed.

(** One round of the loop when the item type is [integer]: the coerced
    item goes to the item validators, and what they return is the
    container of the next round; a failing coercion ends the loop. *)
Lemma enumerate_integer_step fuel0 ivs fuel l i value h xs s typed value' h' :
  h !! l = Some (OList xs) -> xs !! i = Some (VStr s) ->
  PyInt.of_str s = Ok typed ->
  run_validators ivs (VInt (Z.of_nat i)) typed value h = Ok (value', h') ->
  enumerate_list (validate fuel0 (Scalar TInteger ivs)) (S fuel) l i value h =
  enumerate_list (validate fuel0 (Scalar TInteger ivs)) fuel l (S i) value' h'.
Proof.
  intros Hl Hi Hs Hv. erewrite enumerate_list_step by done.
  rewrite validate_Scalar. simpl from_str. rewrite Hs. simpl. by rewrite Hv.
Qed.

Lemma enumerate_integer_fail fuel0 ivs fuel l i value h xs s e :
  h !! l = Some (OList xs) -> xs !! i = Some (VStr s) ->
  PyInt.of_str s = Raise e ->
  enumerate_list (validate fuel0 (Scalar TInteger ivs)) (S fuel) l i value h = Raise e.
Proof.
  intros Hl Hi Hs. erewrite enumerate_list_step by done.
  rewrite validate_Scalar. simpl from_str. by rewrite Hs.
Qed.

End list_facts.

(** C5. On a list that reads ["1"], ["2"], ["x"] at the positions 0, 1
    and 2 when they are reached, a list node with an integer item type
    first applies its own validators, in order, to the whole list
    (their failure is the failure of the call).  Then the items are
    validated by position, from 0: the first one with the list as
    container, the next one with the container the item validators
    returned.  ["1"] and ["2"] are coerced to [1] and [2], which is
    what the item validators receive, with the position as key; they
    may correct the list in place.  At position 2 the coercion raises
    [ValueError], whatever the item validators would do there: they are
    not reached. *)
Theorem list_validate_coercion_error `{Host} {V : Type} `{Validator V}
    fuel (vs ivs : list V) key schema h l :
  let list_node := TList vs [("item", Scalar TInteger ivs)] in
  (forall r,
     apply_bound_validators vs key (VRef l) schema h = r -> is_ok r = false ->
     validate fuel list_node key (VRef l) schema h
     = (r ≫= fun _ => Raise ValueError))
  /\ from_str TInteger (VStr "1") = Ok (VInt 1)
  /\ from_str TInteger (VStr "2") = Ok (VInt 2)
  /\ from_str TInteger (VStr "x") = Raise ValueError
  /\ (forall schema1 h1 xs1 c2 h2 xs2 c3 h3 xs3,
        (3 <= fuel)%nat ->
        apply_bound_validators vs key (VRef l) schema h = Ok (schema1, h1) ->
        h1 !! l = Some (OList xs1) -> xs1 !! 0%nat = Some (VStr "1") ->
        apply_bound_validators ivs (VInt 0) (VInt 1) (VRef l) h1 = Ok (c2, h2) ->
        h2 !! l = Some (OList xs2) -> xs2 !! 1%nat = Some (VStr "2") ->
        apply_bound_validators ivs (VInt 1) (VInt 2) c2 h2 = Ok (c3, h3) ->
        h3 !! l = Some (OList xs3) -> xs3 !! 2%nat = Some (VStr "x") ->
        validate fuel list_node key (VRef l) schema h = Raise ValueError).
Proof.
  intros list_node. split; [|do 3 (split; [reflexivity|])].
  - intros r <- Hr. subst list_node. rewrite validate_TList, run_validators_in_order.
    by destruct (apply_bound_validators vs key (VRef l) schema h).
  - intros schema1 h1 xs1 c2 h2 xs2 c3 h3 xs3 Hfuel Hvs Hl1 Hx1 Hv0 Hl2 Hx2 Hv1 Hl3 Hx3.
    rewrite <- run_validators_in_order in Hv0, Hv1.
    subst list_node. rewrite validate_TList, run_validators_in_order, Hvs.
    cbn [mbind result_bind].
    unfold enumerate. rewrite Hl1. destruct fuel as [|[|[|fuel]]]; try lia.
    erewrite (enumerate_integer_step _ _ _ _ 0) by done.
    erewrite (enumerate_integer_step _ _ _ _ 1) by done.
    by erewrite (enumerate_integer_fail _ _ _ _ 2).
Qed.

Lemma list_validate_coercion_error_witness :
  Sample.validate 3 Sample.list_of_integers (VStr "out") (VRef 1) (VRef 0)
    Sample.store_list = Raise ValueError
  /\ Sample.validate 3 (TList [] [("item", Scalar TInteger [Sample.StoreValue])])
       (VStr "out") (VRef 1) (VRef 0) Sample.store_list
     = Raise ValueError.
Proof.
  split.
  - eapply (proj2 (proj2 (proj2 (proj2
              (list_validate_coercion_error (H := Sample.host)
                 (H0 := Sample.validators) 3 [Sample.Pass]
                 [Sample.RejectKey (VInt 2)] (VStr "out") (VRef 0)
                 Sample.store_list 1%nat))))
              (VRef 0) Sample.store_list [VStr "1"; VStr "2"; VStr "x"]
              (VRef 1) Sample.store_list [VStr "1"; VStr "2"; VStr "x"]
              (VRef 1) Sample.store_list [VStr "1"; VStr "2"; VStr "x"]);
      first [lia | vm_compute; reflexivity].
  - eapply (proj2 (proj2 (proj2 (proj2
              (list_validate_coercion_error (H := Sample.host)
                 (H0 := Sample.validators) 3 []
                 [Sample.StoreValue] (VStr "out") (VRef 0)
                 Sample.store_list 1%nat))))
              (VRef 0) Sample.store_list [VStr "1"; VStr "2"; VStr "x"]
              (VRef 1)
              (<[1%nat := OList [VInt 1; VStr "2"; VStr "x"]]> Sample.store_list)
              [VInt 1; VStr "2"; VStr "x"]
              (VRef 1)
              (<[1%nat := OList [VInt 1; VInt 2; VStr "x"]]> Sample.store_list)
              [VInt 1; VInt 2; VStr "x"]);
      first [lia | vm_compute; reflexivity].
Defined.

(** ** The engine on sample inputs *)

Lemma scalar_validate_leaves_container_witness :
  Sample.validate 0 (Scalar TInteger []) (VStr "n") (VStr "12") (VRef 0) Sample.store_hi
  = Ok (VRef 0, Sample.store_hi).
Proof.
  apply (proj1 (proj2 (scalar_validate_leaves_container (H := Sample.host)
           (H0 := Sample.validators) 0 TInteger (VStr "n") (VStr "12") (VRef 0)
           Sample.store_hi))).
  repeat split.
Defined.

(** C1, as stated, fails: validating [{"a": "hi"}] against
    [object(a: string, b: integer)] succeeds and stores the object under
    the key, but the object is still [{"a": "hi"}]: it has no entry
    ["b"]. *)
Lemma object_absent_key_not_inserted :
  let h' := <[0%nat := ODict [(KStr "out", VRef 1)]]> Sample.store_hi in
  Sample.validate 0 Sample.object_ab (VStr "out") (VRef 1) (VRef 0) Sample.store_hi
  = Ok (VRef 0, h')
  /\ h' !! 1%nat = Some (ODict [(KStr "a", VStr "hi")])
  /\ Store.getitem (VRef 1) (VStr "a") h' = Ok (VStr "hi")
  /\ Store.getitem (VRef 1) (VStr "b") h' = Raise KeyError.
Proof. repeat split; vm_compute; reflexivity. Qed.

Lemma object_validate_children_witness :
  Sample.validate 0 Sample.object_ab (VStr "out") (VRef 1) (VRef 0) Sample.store_hi
  = Ok (VRef 0, <[0%nat := ODict [(KStr "out", VRef 1)]]> Sample.store_hi).
Proof.
  apply (proj1 (proj1 (proj2 (proj2 (proj2
    (object_validate_children (H := Sample.host) (H0 := Sample.validators)
       0 (VStr "out") (VRef 0) Sample.store_hi))))
    [] [("a", Scalar TString []); ("b", Scalar TInteger [])]
    1%nat [(KStr "a", VStr "hi")] (VRef 0) Sample.store_hi (VRef 0)
    (<[0%nat := ODict [(KStr "out", VRef 1)]]> Sample.store_hi)
    ltac:(done) ltac:(repeat constructor) eq_refl eq_refl)).
  split; [|split; [done|vm_compute; reflexivity]].
  repeat constructor; [by exists TString|by exists TInteger].
Defined.

(** C9, as stated, fails: an object node without declared children
    returns the container without an entry under the key. *)
Lemma object_without_children_writes_nothing :
  Sample.validate 0 (TObject [] []) (VStr "out") (VRef 1) (VRef 0) Sample.store_hi
  = Ok (VRef 0, Sample.store_hi)
  /\ Store.getitem (VRef 0) (VStr "out") Sample.store_hi = Raise KeyError.
Proof. split; vm_compute; reflexivity. Qed.

Lemma object_validate_writes_key_witness :
  exists h1 value' h2,
    run_validators ([] : list Sample.validator) (VStr "out") (VRef 1) (VRef 0)
      Sample.store_hi = Ok (VRef 0, h1)
    /\ Object_items 0 [("a", Scalar TString []); ("b", Scalar TInteger [])]
         (VRef 1) h1 = Ok (value', h2)
    /\ Store.setitem (VRef 0) (VStr "out") value' h2
       = Ok (<[0%nat := ODict [(KStr "out", VRef 1)]]> Sample.store_hi)
    /\ Store.getitem (VRef 0) (VStr "out")
         (<[0%nat := ODict [(KStr "out", VRef 1)]]> Sample.store_hi) = Ok value'.
Proof.
  apply (object_validate_writes_key (H := Sample.host) (H0 := Sample.validators)
           0 [] [("a", Scalar TString []); ("b", Scalar TInteger [])]
           (VStr "out") (VRef 1) (VRef 0) Sample.store_hi);
    [done | vm_compute; reflexivity].
Defined.

(** ** Strings *)

Section string_facts.
Import PyStr.

Lemma rstrip_idemp s : rstrip (rstrip s) = rstrip s.
Proof.
  induction s as [|c s IH]; simpl; [done|].
  destruct (rstrip s) as [|d r] eqn:E.
  - destruct (is_space c) eqn:Ec; simpl; [done|]. by rewrite Ec.
  - simpl in IH |- *. by rewrite IH.
Qed.

Lemma lstrip_clean s : starts_clean (lstrip s).
Proof. induction s as [|c s IH]; simpl; [done|]. by destruct (is_space c) eqn:E. Qed.

Lemma lstrip_id s : starts_clean s -> lstrip s = s.
Proof. destruct s; simpl; [done|]. by intros ->. Qed.

Lemma rstrip_clean s : starts_clean s -> starts_clean (rstrip s).
Proof.
  destruct s as [|c s]; simpl; [done|]. intros Hc.
  destruct (rstrip s); simpl; [by rewrite Hc|done].
Qed.

Lemma strip_idemp s : strip (strip s) = strip s.
Proof.
  unfold strip. rewrite (lstrip_id (rstrip (lstrip s))).
  - apply rstrip_idemp.
  - apply rstrip_clean, lstrip_clean.
Qed.

Lemma contains_lstrip c s : contains c s = false -> contains c (lstrip s) = false.
Proof.
  induction s as [|d s IH]; simpl; [done|].
  intros [Hd Hs]%orb_false_elim. destruct (is_space d); [auto|].
  simpl. by rewrite Hd, Hs.
Qed.

Lemma contains_rstrip c s : contains c s = false -> contains c (rstrip s) = false.
Proof.
  induction s as [|d s IH]; simpl; [done|].
  intros [Hd Hs]%orb_false_elim. specialize (IH Hs).
  destruct (rstrip s) as [|d' r].
  - destruct (is_space d); simpl; [done|]. by rewrite Hd.
  - simpl in *. by rewrite Hd, IH.
Qed.

Lemma contains_strip c s : contains c s = false -> contains c (strip s) = false.
Proof. intros Hs. by apply contains_rstrip, contains_lstrip. Qed.

Lemma split_once_absent sep s : contains sep s = false -> split_once sep s = (s, None).
Proof.
  induction s as [|c s IH]; simpl; [done|].
  intros [Hc Hs]%orb_false_elim. rewrite Hc, IH; done.
Qed.

(** [split] cuts at the first occurrence of the separator. *)
Lemma split_once_first sep a b :
  contains sep a = false -> split_once sep (a ++ String sep b) = (a, Some b).
Proof.
  induction a as [|c a IH]; simpl.
  - by rewrite Ascii.eqb_refl.
  - intros [Hc Ha]%orb_false_elim. rewrite Hc, IH; done.
Qed.

Lemma last_app_char s c : last (s ++ String c EmptyString) = Some c.
Proof.
  induction s as [|d s IH]; simpl; [done|].
  destruct (s ++ String c EmptyString) eqn:E; [by destruct s|done].
Qed.

Lemma drop_last_app_char s c : drop_last (s ++ String c EmptyString) = s.
Proof.
  induction s as [|d s IH]; simpl; [done|].
  destruct (s ++ String c EmptyString) eqn:E; [by destruct s|].
  by rewrite IH.
Qed.

End string_facts.

(** ** The directive parser *)

Section parser_facts.
Import PyStr FormatAttr.
Variable eval : string -> result pyval.

Lemma brace_delimited_braces body :
  brace_delimited (String "{" (body ++ "}")) = true.
Proof.
  unfold brace_delimited. rewrite Ascii.eqb_refl. simpl andb.
  apply bool_decide_eq_true_2.
  change (last (String "{" body ++ "}") = Some "}"%char). apply last_app_char.
Qed.

Lemma inner_braces body : inner (String "{" (body ++ "}")) = body.
Proof. apply drop_last_app_char. Qed.

Lemma parse_token_no_colon token :
  contains ":" token = false ->
  parse_token eval token = Ok (strip token, []).
Proof.
  intros Hc. unfold parse_token.
  rewrite split_once_absent by by apply contains_strip.
  by rewrite strip_idemp.
Qed.

Lemma parse_token_colon token before after :
  strip token = before ++ String ":" after ->
  contains ":" before = false ->
  parse_token eval token =
  (args ← parse_args eval (List.filter nonempty (re_split arg_sep None after));
   Ok (strip before, args)).
Proof.
  intros Hs Hc. unfold parse_token. by rewrite Hs, split_once_first.
Qed.

Lemma parse_arg_literal t :
  strip t <> EmptyString -> brace_delimited (strip t) = false ->
  parse_arg eval t = Ok (VStr (strip t)).
Proof.
  intros Hne Hb. unfold parse_arg. destruct (strip t); [done|]. by rewrite Hb.
Qed.

Lemma parse_arg_expression t body :
  strip t = String "{" (body ++ "}") ->
  parse_arg eval t =
  match eval body with
  | Raise ValueError | Raise SyntaxError | Raise NameError => Raise ValueError
  | r => r
  end.
Proof.
  intros Hs. unfold parse_arg. rewrite Hs.
  by rewrite brace_delimited_braces, inner_braces.
Qed.

End parser_facts.

(** C6. [parse_token] splits the trimmed token at its first colon.  A
    token without a colon gives its trimmed text and no argument.
    Otherwise the name is the trimmed text before the colon and the
    arguments come from the pieces of the text after it: a piece that,
    once trimmed, is enclosed in braces is the value [eval] returns for
    the text between the braces (a [ValueError], [SyntaxError] or
    [NameError] of [eval] is raised as [ValueError]); any other piece is
    its trimmed text.  With [eval] on integer arithmetic,
    ["is-in: {1+2} {2+3}"] gives [("is-in", [3, 5])]. *)
Theorem parse_token_spec (eval : string -> result pyval) :
  (forall token,
     PyStr.contains ":" token = false ->
     FormatAttr.parse_token eval token = Ok (PyStr.strip token, []))
  /\ (forall token before after,
        PyStr.strip token = before ++ String ":" after ->
        PyStr.contains ":" before = false ->
        FormatAttr.parse_token eval token =
        (args ← FormatAttr.parse_args eval
                  (List.filter PyStr.nonempty
                     (FormatAttr.re_split FormatAttr.arg_sep None after));
         Ok (PyStr.strip before, args)))
  /\ (forall t ts,
        FormatAttr.parse_args eval (t :: ts) =
        (a ← FormatAttr.parse_arg eval t;
         args ← FormatAttr.parse_args eval ts;
         Ok (a :: args)))
  /\ (forall t body,
        PyStr.strip t = String "{" (body ++ "}") ->
        FormatAttr.parse_arg eval t =
        match eval body with
        | Raise ValueError | Raise SyntaxError | Raise NameError => Raise ValueError
        | r => r
        end)
  /\ (forall t,
        PyStr.strip t <> EmptyString ->
        FormatAttr.brace_delimited (PyStr.strip t) = false ->
        FormatAttr.parse_arg eval t = Ok (VStr (PyStr.strip t)))
  /\ FormatAttr.parse_token Arith.eval "is-in: {1+2} {2+3}"
     = Ok ("is-in", [VInt 3; VInt 5]).
Proof.
  split; [apply parse_token_no_colon|].
  split; [apply parse_token_colon|].
  split; [reflexivity|].
  split; [apply parse_arg_expression|].
  split; [apply parse_arg_literal|].
  vm_compute. reflexivity.
Qed.

Lemma parse_token_spec_witness :
  FormatAttr.parse_token Arith.eval "  valid-url " = Ok ("valid-url", [])
  /\ FormatAttr.parse_token Arith.eval "is-in: a {4*5}"
     = Ok ("is-in", [VStr "a"; VInt 20])
  /\ FormatAttr.parse_arg Arith.eval " {(1 + 2) * 3} " = Ok (VInt 9)
  /\ FormatAttr.parse_arg Arith.eval " one " = Ok (VStr "one").
Proof.
  pose proof (parse_token_spec Arith.eval) as (Hno & Hcolon & _ & Hexpr & Hlit & _).
  split; [apply (Hno "  valid-url "); reflexivity|].
  split; [apply (Hcolon "is-in: a {4*5}" "is-in" " a {4*5}"); reflexivity|].
  split; [apply (Hexpr " {(1 + 2) * 3} " "(1 + 2) * 3"); reflexivity|].
  apply (Hlit " one "); [discriminate|reflexivity].
Defined.

(** C4, on ["name: 'hello world'"]: the pattern splits the trailing
    quoted phrase at its inner space.  A whitespace character outside
    braces is always a separator; the clause on quotes only makes more
    characters separators, it protects none. *)
Theorem parse_token_splits_quoted_phrase (eval : string -> result pyval) :
  FormatAttr.parse_token eval "name: 'hello world'"
  = Ok ("name", [VStr "'hello"; VStr "world'"])
  /\ (forall prev c rest,
        FormatAttr.arg_sep prev c rest =
        PyStr.is_space c
        && (negb (FormatAttr.next_brace_closes rest)
            || negb (bool_decide (prev = Some "'"%char))
               && FormatAttr.quote_closes_at_end rest)).
Proof.
  split; [reflexivity|].
  intros prev c rest. unfold FormatAttr.arg_sep.
  destruct (PyStr.is_space c), (FormatAttr.next_brace_closes rest),
    (bool_decide (prev = Some "'"%char)); reflexivity.
Qed.

(** ** Binding *)

Section binding_facts.
Context {V : Type} `{Catalog V}.
Import FormatAttr Binding.
Implicit Types (e : element) (parsed : list (string * list pyval)).
Implicit Types (vs : list V) (us : list string).

(** The loop over two runs of entries is the loop over the first run
    followed by the loop over the second. *)
Lemma bind_entries_app strict e parsed1 parsed2 vs us :
  bind_entries strict e (parsed1 ++ parsed2) vs us =
  ('(vs1, us1) ← bind_entries strict e parsed1 vs us;
   bind_entries strict e parsed2 vs1 us1).
Proof.
  revert vs us. induction parsed1 as [|[name args] parsed1 IH]; intros vs us;
    [done|].
  simpl. destruct (types_to_validators (tag e)) as [registered| | |]; [simpl|done..].
  destruct (bool_decide (name ∈ registered)); simpl.
  - destruct (validators_registry name) as [ctor| | |]; [simpl|done..].
    destruct (ctor args _); [simpl|done..]. apply IH.
  - destruct strict; [done|]. apply IH.
Qed.

Lemma bind_entries_unregistered strict e name args parsed vs us registered :
  types_to_validators (tag e) = Ok registered ->
  name ∉ registered ->
  bind_entries strict e ((name, args) :: parsed) vs us =
  if strict then Raise ValueError
  else bind_entries strict e parsed vs (us ++ [name]).
Proof.
  intros Ht Hn. simpl. rewrite Ht. simpl.
  by rewrite bool_decide_eq_false_2.
Qed.

End binding_facts.

(** C7. Let an entry of the parsed directive name a validator that is
    not registered for the element's tag.  In strict mode the loop
    raises [ValueError] at that entry, so [get_validators] does not
    return a list, whatever comes before or after the entry.  In
    lenient mode the name is appended to the unregistered list, the list
    of validators is left as it is (no instance is built), and the loop
    goes on with the entries that follow.  Nothing else is recovered:
    when the registry has no class for a registered name, or the class
    raises on its arguments, the error ends the loop in both modes. *)
Theorem unregistered_validator_binding {V : Type} `{Catalog V}
    (e : FormatAttr.element) name args registered
    (parsed1 parsed2 : list (string * list pyval))
    (vs vs1 : list V) (us us1 : list string) :
  types_to_validators (FormatAttr.tag e) = Ok registered ->
  name ∉ registered ->
  (forall strict,
     Binding.bind_entries strict e parsed1 vs us = Ok (vs1, us1) ->
     Binding.bind_entries strict e (parsed1 ++ (name, args) :: parsed2) vs us =
     if strict then Raise ValueError
     else Binding.bind_entries strict e parsed2 vs1 (us1 ++ [name]))
  /\ is_ok (Binding.bind_entries true e (parsed1 ++ (name, args) :: parsed2) vs us)
     = false
  /\ (forall eval fa strict parsed,
        FormatAttr.parse eval fa = Ok parsed ->
        Binding.get_validators eval fa strict =
        Binding.bind_entries strict (FormatAttr.elem fa) parsed [] [])
  /\ (forall strict name' args' err,
        name' ∈ registered ->
        validators_registry name' = Raise err ->
        Binding.bind_entries strict e ((name', args') :: parsed2) vs us = Raise err)
  /\ (forall strict name' args' ctor err,
        name' ∈ registered ->
        validators_registry name' = Ok ctor ->
        ctor args' (adict_get (FormatAttr.attrib e) ("on-fail-" ++ name')) = Raise err ->
        Binding.bind_entries strict e ((name', args') :: parsed2) vs us = Raise err).
Proof.
  intros Ht Hn. split; [|split; [|split; [|split]]].
  - intros strict Hb. rewrite bind_entries_app, Hb. cbn [mbind result_bind].
    by erewrite bind_entries_unregistered.
  - rewrite bind_entries_app.
    destruct (Binding.bind_entries true e parsed1 vs us) as [[vs' us']| | |];
      [|done..].
    cbn [mbind result_bind]. by erewrite bind_entries_unregistered.
  - intros eval fa strict parsed Hp. unfold Binding.get_validators. by rewrite Hp.
  - intros strict name' args' err Hin Hr. simpl. rewrite Ht. simpl.
    rewrite bool_decide_eq_true_2 by done. simpl. by rewrite Hr.
  - intros strict name' args' ctor err Hin Hr Hc. simpl. rewrite Ht. simpl.
    rewrite bool_decide_eq_true_2 by done. simpl. rewrite Hr. simpl. by rewrite Hc.
Qed.

Lemma unregistered_validator_binding_witness :
  let fa := FormatAttr.Build (Some "pass; is-reachable; one-of: a b")
              (FormatAttr.Element "string" []) in
  Sample.get_validators fa false
  = Ok ([Sample.Pass; Sample.OneOf ["a"; "b"]], ["is-reachable"])
  /\ Sample.get_validators fa true = Raise ValueError.
Proof.
  pose proof (unregistered_validator_binding (H := Sample.catalog)
    (FormatAttr.Element "string" []) "is-reachable" [] ["pass"; "one-of"]
    [("pass", [])] [("one-of", [VStr "a"; VStr "b"])]
    [] [Sample.Pass] [] [] eq_refl) as (Hloop & _ & Hget & _).
  { vm_compute. intros Hin. by repeat (inversion Hin as [|? ? ? Hin']; clear Hin; rename Hin' into Hin). }
  intros fa. unfold Sample.get_validators. split.
  - etrans; [apply (Hget Arith.eval fa false); vm_compute; reflexivity|].
    etrans; [apply (Hloop false); reflexivity|]. reflexivity.
  - etrans; [apply (Hget Arith.eval fa true); vm_compute; reflexivity|].
    apply (Hloop true). reflexivity.
Defined.

(** ** Construction of date and time nodes *)

(** C3. No time node is made from markup, with or without a
    [time-format] attribute: [Time.from_xml] starts with
    [super().from_xml(element, strict)], and the inherited [from_xml]
    that stands in this revision takes the element only, so the call
    raises [TypeError] for every element and every [strict]; the
    markup [<time name="start" time-format="%H-%M"/>] is one such
    element.  The assignment that follows in the method would not
    change the pattern either: it sets [date_format], and the coercion
    of a time node reads [time_format], so it parses with the pattern
    the node had ([__init__] gives ["%H:%M:%S"]).  The coercion itself
    is as claimed: [None] stays [None], and for a string the result, or
    the error, is that of [strptime]. *)
Theorem time_format_never_configured `{Host} {V : Type} :
  (forall (e : FormatAttr.element) (strict : bool),
     Construct.Time_from_xml Build.super_from_xml e strict = Raise TypeError)
  /\ (forall (children : list Build.xml),
        Build.from_xml (V := V) Build.CTime
          (Build.XML "time" [("name", "start"); ("time-format", "%H-%M")] children)
        = Raise TypeError)
  /\ (forall time_format date_format fmt v,
        from_str (Construct.set_date_format (TTime time_format date_format) fmt) v
        = from_str (TTime time_format date_format) v)
  /\ (forall s,
        from_str Construct.Time_init (VStr s)
        = time_of <$> strptime (VStr s) "%H:%M:%S")
  /\ (forall time_format date_format s,
        from_str (TTime time_format date_format) (VStr s)
        = time_of <$> strptime (VStr s) time_format)
  /\ (forall time_format date_format,
        from_str (TTime time_format date_format) VNone = Ok VNone).
Proof.
  split.
  { intros e strict. unfold Construct.Time_from_xml, Build.super_from_xml.
    assert (Hcall : Build.call_binds ["element"] 1 2 [] = false) by reflexivity.
    by rewrite Hcall. }
  split.
  { intros children. cbn [Build.from_xml].
    unfold Construct.Time_from_xml, Build.super_from_xml.
    assert (Hcall : Build.call_binds ["element"] 1 2 [] = false) by reflexivity.
    by rewrite Hcall. }
  split; [by intros time_format date_format fmt [] |].
  split; [reflexivity|]. split; reflexivity.
Qed.

(** ** Growth of the store *)

Section growth_facts.
Import Store.
Implicit Types (h : heap) (d : list (dkey * pyval)).

Lemma dict_le_refl d : dict_le d d.
Proof. intros k. destruct (adict_get d k); auto. Qed.

Lemma dict_le_trans d1 d2 d3 : dict_le d1 d2 -> dict_le d2 d3 -> dict_le d1 d3.
Proof.
  intros H12 H23 k. specialize (H12 k). specialize (H23 k).
  destruct (adict_get d1 k) as [v|].
  - by rewrite H12 in H23.
  - destruct H12 as [E|E]; rewrite E in H23; auto.
Qed.

Lemma obj_le_refl o : obj_le o o.
Proof. destruct o; simpl; [apply dict_le_refl|done]. Qed.

Lemma obj_le_trans o1 o2 o3 : obj_le o1 o2 -> obj_le o2 o3 -> obj_le o1 o3.
Proof.
  destruct o1, o2, o3; simpl; try done; [apply dict_le_trans|congruence].
Qed.

Lemma heap_le_refl h : heap_le h h.
Proof. intros l. destruct (h !! l) eqn:E; eauto using obj_le_refl. Qed.

Lemma heap_le_trans h1 h2 h3 : heap_le h1 h2 -> heap_le h2 h3 -> heap_le h1 h3.
Proof.
  intros H12 H23 l. specialize (H12 l). specialize (H23 l).
  destruct (h1 !! l) as [o1|].
  - destruct H12 as (o2 & E2 & Ho2). rewrite E2 in H23.
    destruct H23 as (o3 & E3 & Ho3). eauto using obj_le_trans.
  - by rewrite H12 in H23.
Qed.

Lemma heap_le_list h h' l xs :
  heap_le h h' -> h !! l = Some (OList xs) -> h' !! l = Some (OList xs).
Proof.
  intros Hle Hl. specialize (Hle l). rewrite Hl in Hle.
  destruct Hle as ([d|xs'] & E & Ho); simpl in Ho; [done|congruence].
Qed.

Lemma heap_le_dict h h' l d :
  heap_le h h' -> h !! l = Some (ODict d) ->
  exists d', h' !! l = Some (ODict d') /\ dict_le d d'.
Proof.
  intros Hle Hl. specialize (Hle l). rewrite Hl in Hle.
  destruct Hle as ([d'|xs'] & E & Ho); simpl in Ho; [eauto|done].
Qed.

(** A lookup that succeeds keeps its result when the store grows. *)
Lemma getitem_mono h h' c k v :
  heap_le h h' -> getitem c k h = Ok v -> getitem c k h' = Ok v.
Proof.
  intros Hle. unfold getitem. destruct c as [| | | |s| | |l]; auto.
  destruct (h !! l) as [[d|xs]|] eqn:Hl; [| |done].
  - destruct (heap_le_dict _ _ _ _ Hle Hl) as (d' & -> & Hd).
    destruct (as_key k) as [dk| | |]; simpl; try done.
    specialize (Hd dk). destruct (adict_get d dk); [|done]. by rewrite Hd.
  - by rewrite (heap_le_list _ _ _ _ Hle Hl).
Qed.

Lemma py_get_mono h h' value key fetched :
  heap_le h h' -> py_get value key h = Ok fetched -> py_get value key h' = Ok fetched.
Proof.
  intros Hle. unfold py_get. destruct value; try done.
  destruct (h !! l) as [[d|xs]|] eqn:Hl; [|done..].
  destruct (heap_le_dict _ _ _ _ Hle Hl) as (d' & -> & Hd).
  specialize (Hd (KStr key)). destruct (adict_get d (KStr key)); simpl.
  - by rewrite Hd.
  - intros [= <-]. by destruct Hd as [-> | ->].
Qed.

Lemma holds_mono h h' schema key value :
  heap_le h h' -> holds schema key value h -> holds schema key value h'.
Proof.
  intros Hle [Hg|(-> & l & d & k & -> & Hl & Hk & Hd)].
  - left. eauto using getitem_mono.
  - destruct (heap_le_dict _ _ _ _ Hle Hl) as (d' & Hl' & Hdd).
    specialize (Hdd k). rewrite Hd in Hdd. destruct Hdd as [E|E].
    + right. split; [done|]. by exists l, d', k.
    + left. unfold getitem. rewrite Hl', Hk. simpl. by rewrite E.
Qed.

(** What [value.get(key, None)] returns is held by the value. *)
Lemma py_get_holds h value key fetched :
  py_get value key h = Ok fetched -> holds value (VStr key) fetched h.
Proof.
  unfold py_get. destruct value; try done.
  destruct (h !! l) as [[d|xs]|] eqn:Hl; [|done..].
  destruct (adict_get d (KStr key)) as [v|] eqn:Hd; simpl; intros [= <-].
  - left. unfold getitem. rewrite Hl. simpl. by rewrite Hd.
  - right. split; [done|]. by exists l, d, (KStr key).
Qed.

(** Only lists and dicts can be assigned to. *)
Lemma setitem_ref c k v h h' : setitem c k v h = Ok h' -> exists l, c = VRef l.
Proof. destruct c; try done. eauto. Qed.

(** Assigning what is already there succeeds and changes nothing. *)
Lemma setitem_noop l k v h :
  getitem (VRef l) k h = Ok v -> setitem (VRef l) k v h = Ok h.
Proof.
  unfold setitem, getitem.
  destruct (h !! l) as [[d|xs]|] eqn:Hl; try done.
  - destruct (as_key k) as [dk| | |]; simpl; try done.
    destruct (adict_get d dk) eqn:Hg; [|done].
    intros; simplify_eq. rewrite adict_set_same by done. by rewrite insert_id.
  - destruct (as_index k) as [i| | |]; simpl; try done.
    destruct (norm_index (length xs) i) as [n|]; [|done].
    destruct (xs !! n) eqn:Hx; [|done].
    intros; simplify_eq. rewrite list_insert_id by done. by rewrite insert_id.
Qed.

(** An assignment of a value the container holds only grows the store. *)
Lemma setitem_holds c k v h h' :
  holds c k v h -> setitem c k v h = Ok h' ->
  heap_le h h' /\ getitem c k h' = Ok v.
Proof.
  intros Hh Hs. split; [|eauto using getitem_setitem].
  destruct Hh as [Hg|(-> & l & d & dk & -> & Hl & Hk & Hd)].
  - rewrite (setitem_same _ _ _ _ _ Hg Hs). apply heap_le_refl.
  - unfold setitem in Hs. rewrite Hl, Hk in Hs. simpl in Hs. simplify_eq.
    intros l'. destruct (decide (l' = l)) as [->|Hne].
    + rewrite Hl, lookup_insert_eq. eexists; split; [done|]. simpl.
      intros k'. destruct (decide (dk = k')) as [<-|Hk'].
      * rewrite Hd, adict_get_set_eq. auto.
      * rewrite adict_get_set_ne by done. destruct (adict_get d k'); auto.
    + rewrite lookup_insert_ne by done.
      destruct (h !! l'); eauto using obj_le_refl.
Qed.

End growth_facts.

(** ** Validation without validators *)

Section settle_facts.
Context `{Host} {V : Type} `{Validator V}.
Import Store.
Implicit Types (n : node V) (cs : list (string * node V)) (h : heap).

(** Induction over the schema tree, with the property at every child. *)
Lemma node_children_ind (P : node V -> Prop) :
  (forall ty vs, P (Scalar ty vs)) ->
  (forall vs cs, Forall (fun c => P c.2) cs -> P (TList vs cs)) ->
  (forall vs cs, Forall (fun c => P c.2) cs -> P (TObject vs cs)) ->
  (forall on_fail cs, Forall (fun c => P c.2) cs -> P (TChoice on_fail cs)) ->
  (forall vs cs, Forall (fun c => P c.2) cs -> P (TCase vs cs)) ->
  forall n, P n.
Proof.
  intros HS HL HO HCh HCa.
  fix IH 1. intros [ty vs|vs cs|vs cs|on_fail cs|vs cs].
  - apply HS.
  - apply HL. induction cs as [|[name c] cs IHcs]; constructor; [apply IH|done].
  - apply HO. induction cs as [|[name c] cs IHcs]; constructor; [apply IH|done].
  - apply HCh. induction cs as [|[name c] cs IHcs]; constructor; [apply IH|done].
  - apply HCa. induction cs as [|[name c] cs IHcs]; constructor; [apply IH|done].
Qed.

Lemma no_validators_children vs cs :
  no_validators (TObject vs cs) -> vs = [] /\ Forall (fun c => no_validators c.2) cs.
Proof.
  simpl. intros [-> Hcs]. split; [done|].
  induction cs as [|[name c] cs IH]; constructor; [apply Hcs|apply IH, Hcs].
Qed.

Lemma string_nth_lt s i c : string_nth s i = Some c -> (i < String.length s)%nat.
Proof.
  revert i. induction s as [|d s IH]; intros [|i]; simpl; try done; [lia|].
  intros Hs. apply IH in Hs. lia.
Qed.

Lemma norm_index_nat len i : (i < len)%nat -> norm_index len (Z.of_nat i) = Some i.
Proof.
  intros Hi. unfold norm_index.
  rewrite (proj2 (Z.leb_le _ _)), (proj2 (Z.ltb_lt _ _)) by lia. simpl.
  by rewrite Nat2Z.id.
Qed.

(** The loop over a string settles when its body does. *)
Lemma enumerate_str_settles body whole :
  settling body ->
  forall s i h value' h',
    (forall j, string_nth s j = string_nth whole (i + j)) ->
    enumerate_str body s i (VStr whole) h = Ok (value', h') ->
    value' = VStr whole /\ heap_le h h'
    /\ forall h2, heap_le h' h2 ->
         enumerate_str body s i (VStr whole) h2 = Ok (VStr whole, h2).
Proof.
  intros Hbody. induction s as [|c s IH]; intros i h value' h' Hs; simpl.
  - intros [= <- <-]. eauto using heap_le_refl.
  - intros Hrun. inv_bind Hrun as [value1 h1] Hb.
    apply Hbody in Hb as (-> & Hle1 & Hb2).
    + apply IH in Hrun as (-> & Hle2 & Hrest).
      * split; [done|]. split; [eauto using heap_le_trans|].
        intros h2 Hle. rewrite Hb2 by eauto using heap_le_trans. simpl. auto.
      * intros j. replace (S i + j)%nat with (i + S j)%nat by lia.
        apply (Hs (S j)).
    + left. pose proof (Hs 0%nat) as Hc. simpl in Hc. rewrite Nat.add_0_r in Hc.
      symmetry in Hc. unfold getitem. simpl.
      rewrite norm_index_nat by eauto using string_nth_lt. by rewrite Hc.
Qed.

(** The loop over a stored list settles when its body does. *)
Lemma enumerate_list_settles body l xs :
  settling body ->
  forall fuel i h value' h',
    h !! l = Some (OList xs) ->
    enumerate_list body fuel l i (VRef l) h = Ok (value', h') ->
    value' = VRef l /\ heap_le h h'
    /\ forall h2, heap_le h' h2 ->
         enumerate_list body fuel l i (VRef l) h2 = Ok (VRef l, h2).
Proof.
  intros Hbody. induction fuel as [|fuel IH]; intros i h value' h' Hl; simpl;
    rewrite Hl; destruct (xs !! i) as [item|] eqn:Hi; try done.
  - intros [= <- <-]. split; [done|]. split; [apply heap_le_refl|].
    intros h2 Hle. by rewrite (heap_le_list _ _ _ _ Hle Hl), Hi.
  - intros Hrun. inv_bind Hrun as [value1 h1] Hb.
    apply Hbody in Hb as (-> & Hle1 & Hb2).
    + apply IH in Hrun as (-> & Hle2 & Hrest); [|eauto using heap_le_list].
      split; [done|]. split; [eauto using heap_le_trans|].
      intros h2 Hle.
      rewrite (heap_le_list h h2 l xs), Hi by eauto using heap_le_trans.
      rewrite Hb2 by eauto using heap_le_trans. simpl. auto.
    + left. unfold getitem. rewrite Hl. simpl.
      rewrite norm_index_nat by eauto using lookup_lt_Some. by rewrite Hi.
  - intros [= <- <-]. split; [done|]. split; [apply heap_le_refl|].
    intros h2 Hle. by rewrite (heap_le_list _ _ _ _ Hle Hl), Hi.
Qed.

(** The loop over the declared children settles when every child does. *)
Lemma Object_items_settles fuel cs :
  Forall (fun c => settling (validate fuel c.2)) cs ->
  forall value h value' h',
    Object_items fuel cs value h = Ok (value', h') ->
    value' = value /\ heap_le h h'
    /\ forall h2, heap_le h' h2 -> Object_items fuel cs value h2 = Ok (value, h2).
Proof.
  induction 1 as [|[ck cn] cs Hc _ IH]; intros value h value' h'; simpl.
  - intros [= <- <-]. eauto using heap_le_refl.
  - intros Hrun. inv_bind Hrun as fetched Hget.
    inv_bind Hrun as [value1 h1] Hchild.
    apply Hc in Hchild as (-> & Hle1 & Hchild2); [|eauto using py_get_holds].
    apply IH in Hrun as (-> & Hle2 & Hrest).
    split; [done|]. split; [eauto using heap_le_trans|].
    intros h2 Hle.
    rewrite (py_get_mono h h2 _ _ fetched) by eauto using heap_le_trans.
    simpl. rewrite Hchild2 by eauto using heap_le_trans. simpl. auto.
Qed.

(** Without validators, a call on a container that holds the value (a
    condition that matters only for the nodes that assign to the key)
    returns that container, only grows the store, and is without effect
    on the store it leaves and on every larger one. *)
Lemma validate_settles n :
  no_validators n ->
  forall fuel key value schema h schema' h',
    (writes_key n -> holds schema key value h) ->
    validate fuel n key value schema h = Ok (schema', h') ->
    schema' = schema /\ heap_le h h'
    /\ forall h2, heap_le h' h2 -> validate fuel n key value schema h2 = Ok (schema, h2).
Proof.
  induction n as [ty vs|vs cs IH|vs cs IH|on_fail cs IH|vs cs IH]
    using node_children_ind; intros Hnv fuel key value schema h schema' h' Hh.
  - (* scalar *)
    simpl in Hnv. subst vs. rewrite validate_Scalar. intros Hrun.
    inv_bind Hrun as typed Hty. simpl in Hrun. injection Hrun as <- <-.
    split; [done|]. split; [apply heap_le_refl|].
    intros h2 _. by rewrite validate_Scalar, Hty.
  - (* list *)
    apply no_validators_children in Hnv as [-> Hcs].
    rewrite validate_TList. simpl run_validators. cbn [mbind result_bind].
    destruct cs as [|[name item] cs'].
    { intros [= <- <-]. split; [done|]. split; [apply heap_le_refl|].
      intros h2 _. by rewrite validate_TList. }
    apply Forall_cons_1 in IH as [IHitem _]. apply Forall_cons_1 in Hcs as [Hitem _].
    simpl in IHitem, Hitem.
    assert (Hbody : settling (validate fuel item)).
    { intros k v c h0 c' h0' Hk. eauto. }
    intros Hrun. inv_bind Hrun as [value1 h1] Hloop. injection Hrun as <- <-.
    assert (value1 = value /\ heap_le h h1
            /\ forall h2, heap_le h1 h2 ->
                 enumerate (validate fuel item) fuel value h2 = Ok (value, h2))
      as (-> & Hle & Hagain).
    { unfold enumerate in Hloop |- *. destruct value as [| | | |s| | |l]; try done.
      - eapply enumerate_str_settles in Hloop as (-> & Hle & Hagain); eauto.
      - destruct (h !! l) as [[d|xs]|] eqn:Hl; try done.
        eapply enumerate_list_settles in Hloop as (-> & Hle & Hagain); eauto.
        do 2 (split; [done|]). intros h2 Hle2.
        rewrite (heap_le_list h h2 l xs) by eauto using heap_le_trans. auto. }
    split; [done|]. split; [done|].
    intros h2 Hle2. rewrite validate_TList. simpl run_validators.
    cbn [mbind result_bind]. by rewrite Hagain.
  - (* object *)
    apply no_validators_children in Hnv as [-> Hcs].
    rewrite validate_TObject. simpl run_validators. cbn [mbind result_bind].
    destruct cs as [|c cs'].
    { intros [= <- <-]. split; [done|]. split; [apply heap_le_refl|].
      intros h2 _. by rewrite validate_TObject. }
    specialize (Hh I). remember (c :: cs') as cs eqn:Ecs.
    assert (Hbodies : Forall (fun c => settling (validate fuel c.2)) cs).
    { clear Ecs. induction IH as [|c0 cs0 IH0 _ IHrec]; [constructor|].
      apply Forall_cons_1 in Hcs as [Hc0 Hcs0]. constructor; [|auto].
      intros k v s h0 s' h0' Hk. eauto. }
    intros Hrun. inv_bind Hrun as [value1 h1] Hitems.
    apply (Object_items_settles _ _ Hbodies) in Hitems as (-> & Hle1 & Hagain).
    inv_bind Hrun as h2 Hset. injection Hrun as <- <-.
    pose proof (setitem_ref _ _ _ _ _ Hset) as [l ->].
    apply (holds_mono _ _ _ _ _ Hle1) in Hh.
    destruct (setitem_holds _ _ _ _ _ Hh Hset) as [Hle2 Hget].
    split; [done|]. split; [eauto using heap_le_trans|].
    intros h3 Hle3. rewrite validate_TObject. simpl run_validators.
    cbn [mbind result_bind]. subst cs.
    rewrite Hagain by eauto using heap_le_trans. cbn [mbind result_bind].
    by rewrite setitem_noop by eauto using getitem_mono.
  - (* choice *)
    done.
  - (* case *)
    rewrite validate_TCase. destruct cs as [|[name child] cs']; [done|].
    specialize (Hh I).
    apply Forall_cons_1 in IH as [IHchild _]. simpl in IHchild.
    assert (Hchild : no_validators child) by (simpl in Hnv; tauto).
    intros Hrun. inv_bind Hrun as [value1 h1] Hc.
    apply IHchild in Hc as (-> & Hle1 & Hagain); [|done|auto].
    inv_bind Hrun as h2 Hset. injection Hrun as <- <-.
    pose proof (setitem_ref _ _ _ _ _ Hset) as [l ->].
    apply (holds_mono _ _ _ _ _ Hle1) in Hh.
    destruct (setitem_holds _ _ _ _ _ Hh Hset) as [Hle2 Hget].
    split; [done|]. split; [eauto using heap_le_trans|].
    intros h3 Hle3. rewrite validate_TCase.
    rewrite Hagain by eauto using heap_le_trans. cbn [mbind result_bind].
    by rewrite setitem_noop by eauto using getitem_mono.
Qed.

End settle_facts.

(** ** Framing: the store outside a detached container *)

Section frame_facts.
Import Store.
Implicit Types (h : heap) (d : list (dkey * pyval)).

Lemma getitem_insert_ne lc o' c k h :
  c <> VRef lc -> getitem c k (<[lc := o']> h) = getitem c k h.
Proof.
  intros Hc. unfold getitem. destruct c; try done.
  rewrite lookup_insert_ne; [done|congruence].
Qed.

Lemma getitem_insert_eq lc o' k h :
  getitem (VRef lc) k (<[lc := o']> h) = getitem (VRef lc) k {[ lc := o' ]}.
Proof. unfold getitem. by rewrite lookup_insert_eq, lookup_singleton_eq. Qed.

Lemma py_get_insert_ne lc o' value key h :
  value <> VRef lc -> py_get value key (<[lc := o']> h) = py_get value key h.
Proof.
  intros Hc. unfold py_get. destruct value; try done.
  rewrite lookup_insert_ne; [done|congruence].
Qed.

Lemma setitem_insert_ne lc o' c k v h h' :
  c <> VRef lc -> setitem c k v h = Ok h' ->
  setitem c k v (<[lc := o']> h) = Ok (<[lc := o']> h').
Proof.
  intros Hc. unfold setitem. destruct c; try done.
  assert (lc <> l) as Hl by congruence.
  rewrite lookup_insert_ne by done.
  destruct (h !! l) as [[d|xs]|]; [| |done].
  - destruct (as_key k); simpl; try done. intros [= <-].
    by rewrite insert_insert_ne.
  - destruct (as_index k); simpl; try done.
    destruct (norm_index _ _); [|done]. intros [= <-].
    by rewrite insert_insert_ne.
Qed.

Lemma setitem_insert_eq lc o' k v h h' :
  setitem (VRef lc) k v h = Ok h' ->
  getitem (VRef lc) k {[ lc := o' ]} = Ok v ->
  setitem (VRef lc) k v (<[lc := o']> h) = Ok (<[lc := o']> h').
Proof.
  intros Hs Hg. rewrite setitem_noop by by rewrite getitem_insert_eq.
  f_equal. unfold setitem in Hs.
  destruct (h !! lc) as [[d|xs]|]; [| |done].
  - destruct (as_key k); simpl in Hs; try done. injection Hs as <-.
    by rewrite insert_insert_eq.
  - destruct (as_index k); simpl in Hs; try done.
    destruct (norm_index _ _); [|done]. injection Hs as <-.
    by rewrite insert_insert_eq.
Qed.

Lemma elem_of_adict_set_values d k v x :
  x ∈ map snd (adict_set d k v) -> x = v \/ x ∈ map snd d.
Proof.
  induction d as [|[k' v'] d IH]; simpl.
  - intros ?%list_elem_of_singleton. auto.
  - destruct (decide (k' = k)); simpl; rewrite !elem_of_cons; intros [?|?]; auto.
    destruct IH; auto.
Qed.

Lemma elem_of_list_insert {A} (xs : list A) n v x :
  x ∈ <[n := v]> xs -> x = v \/ x ∈ xs.
Proof.
  revert n. induction xs as [|y xs IH]; intros [|n]; simpl;
    rewrite ?elem_of_cons; intros Hx; auto.
  - destruct Hx; auto.
  - destruct Hx as [->|Hx]; [auto|]. destruct (IH _ Hx); auto.
Qed.

(** Storing a value other than the object keeps it unreferenced. *)
Lemma setitem_unreferenced lc c k v h h' :
  unreferenced lc h -> v <> VRef lc -> setitem c k v h = Ok h' ->
  unreferenced lc h'.
Proof.
  intros Hu Hv. unfold setitem. destruct c; try done.
  destruct (h !! l) as [[d|xs]|] eqn:Hl; [| |done].
  - destruct (as_key k) as [dk| | |]; simpl; try done. intros [= <-] l' o.
    destruct (decide (l = l')) as [<-|Hne].
    + rewrite lookup_insert_eq. intros [= <-] Hin. simpl in Hin.
      apply elem_of_adict_set_values in Hin as [E|Hin]; [congruence|].
      by apply (Hu _ _ Hl).
    + rewrite lookup_insert_ne by done. apply Hu.
  - destruct (as_index k) as [i| | |]; simpl; try done.
    destruct (norm_index _ _) as [n|]; [|done]. intros [= <-] l' o.
    destruct (decide (l = l')) as [<-|Hne].
    + rewrite lookup_insert_eq. intros [= <-] Hin. simpl in Hin.
      apply elem_of_list_insert in Hin as [E|Hin]; [congruence|].
      by apply (Hu _ _ Hl).
    + rewrite lookup_insert_ne by done. apply Hu.
Qed.

Lemma py_get_unreferenced lc value key fetched h :
  unreferenced lc h -> py_get value key h = Ok fetched -> fetched <> VRef lc.
Proof.
  intros Hu. unfold py_get. destruct value; try done.
  destruct (h !! l) as [[d|xs]|] eqn:Hl; [|done..].
  destruct (adict_get d (KStr key)) as [v|] eqn:Hd; simpl; intros [= <-]; [|done].
  intros ->. apply (Hu _ _ Hl). simpl.
  clear Hl. induction d as [|[k' v'] d IH]; simpl in *; [done|].
  destruct (decide (k' = KStr key)); simplify_eq; [left|right; auto].
Qed.

Lemma list_item_unreferenced lc l xs (i : nat) item h :
  unreferenced lc h -> h !! l = Some (OList xs) -> xs !! i = Some item ->
  item <> VRef lc.
Proof.
  intros Hu Hl Hi ->. apply (Hu _ _ Hl). simpl. eauto using list_elem_of_lookup_2.
Qed.

End frame_facts.

Section framed_facts.
Context `{Host} {V : Type} `{Validator V}.
Import Store.
Implicit Types (n : node V) (cs : list (string * node V)) (h : heap).
Variable lc : loc.

Lemma enumerate_str_framed needs_key body whole :
  framed lc needs_key body ->
  forall s i h value' h',
    unreferenced lc h ->
    enumerate_str body s i (VStr whole) h = Ok (value', h') ->
    value' = VStr whole /\ unreferenced lc h'
    /\ forall o',
         enumerate_str body s i (VStr whole) (<[lc := o']> h)
         = Ok (VStr whole, <[lc := o']> h').
Proof.
  intros Hbody. induction s as [|c s IH]; intros i h value' h' Hu; simpl.
  - by intros [= <- <-].
  - intros Hrun. inv_bind Hrun as [value1 h1] Hb.
    apply Hbody in Hb as (-> & Hu1 & Hb'); [|done..].
    apply IH in Hrun as (-> & Hu2 & Hrest); [|done].
    do 2 (split; [done|]). intros o'. rewrite Hb' by done. simpl. auto.
Qed.

Lemma enumerate_list_framed needs_key body l :
  l <> lc ->
  framed lc needs_key body ->
  forall fuel i h value' h',
    unreferenced lc h ->
    enumerate_list body fuel l i (VRef l) h = Ok (value', h') ->
    value' = VRef l /\ unreferenced lc h'
    /\ forall o',
         enumerate_list body fuel l i (VRef l) (<[lc := o']> h)
         = Ok (VRef l, <[lc := o']> h').
Proof.
  intros Hl Hbody.
  induction fuel as [|fuel IH]; intros i h value' h' Hu; simpl;
    rewrite ?(lookup_insert_ne h lc l) by done;
    destruct (h !! l) as [[d|xs]|] eqn:Hhl; try done;
    destruct (xs !! i) as [item|] eqn:Hi; try done.
  - intros [= <- <-]. do 2 (split; [done|]). intros o'.
    by rewrite lookup_insert_ne, Hhl, Hi.
  - intros Hrun. inv_bind Hrun as [value1 h1] Hb.
    apply Hbody in Hb as (-> & Hu1 & Hb');
      [|eauto using list_item_unreferenced|done].
    apply IH in Hrun as (-> & Hu2 & Hrest); [|done].
    do 2 (split; [done|]). intros o'.
    rewrite lookup_insert_ne, Hhl, Hi by done.
    rewrite Hb' by congruence. simpl. auto.
  - intros [= <- <-]. do 2 (split; [done|]). intros o'.
    by rewrite lookup_insert_ne, Hhl, Hi.
Qed.

Lemma Object_items_framed fuel cs :
  Forall (fun c => framed lc (writes_key c.2) (validate fuel c.2)) cs ->
  forall value h value' h',
    value <> VRef lc ->
    unreferenced lc h ->
    Object_items fuel cs value h = Ok (value', h') ->
    value' = value /\ unreferenced lc h'
    /\ forall o',
         Object_items fuel cs value (<[lc := o']> h) = Ok (value, <[lc := o']> h').
Proof.
  induction 1 as [|[ck cn] cs Hc _ IH]; intros value h value' h' Hv Hu; simpl.
  - by intros [= <- <-].
  - intros Hrun. inv_bind Hrun as fetched Hget.
    inv_bind Hrun as [value1 h1] Hchild.
    apply Hc in Hchild as (-> & Hu1 & Hchild');
      [|eauto using py_get_unreferenced|done].
    apply IH in Hrun as (-> & Hu2 & Hrest); [|done..].
    do 2 (split; [done|]). intros o'.
    rewrite py_get_insert_ne, Hget by done. simpl.
    rewrite Hchild' by done. simpl. auto.
Qed.

(** The assignment that ends [Object.validate] and [Case.validate],
    with the object at [lc] replaced. *)
Lemma setitem_framed schema key value h h' o' :
  setitem schema key value h = Ok h' ->
  (schema = VRef lc -> getitem (VRef lc) key {[ lc := o' ]} = Ok value) ->
  setitem schema key value (<[lc := o']> h) = Ok (<[lc := o']> h').
Proof.
  intros Hs Ho. destruct (decide (schema = VRef lc)) as [->|Hne].
  - auto using setitem_insert_eq.
  - auto using setitem_insert_ne.
Qed.

Lemma validate_framed n :
  no_validators n -> forall fuel, framed lc (writes_key n) (validate fuel n).
Proof.
  induction n as [ty vs|vs cs IH|vs cs IH|on_fail cs IH|vs cs IH]
    using node_children_ind;
    intros Hnv fuel key value schema h schema' h' Hv Hu.
  - (* scalar *)
    simpl in Hnv. subst vs. rewrite validate_Scalar. intros Hrun.
    inv_bind Hrun as typed Hty. simpl in Hrun. injection Hrun as <- <-.
    do 2 (split; [done|]). intros o' _. by rewrite validate_Scalar, Hty.
  - (* list *)
    apply no_validators_children in Hnv as [-> Hcs].
    rewrite validate_TList. simpl run_validators. cbn [mbind result_bind].
    destruct cs as [|[name item] cs'].
    { intros [= <- <-]. do 2 (split; [done|]). intros o' _.
      by rewrite validate_TList. }
    apply Forall_cons_1 in IH as [IHitem _]. apply Forall_cons_1 in Hcs as [Hitem _].
    simpl in IHitem, Hitem. specialize (IHitem Hitem fuel).
    intros Hrun. inv_bind Hrun as [value1 h1] Hloop. injection Hrun as <- <-.
    assert (unreferenced lc h1
            /\ forall o', enumerate (validate fuel item) fuel value (<[lc := o']> h)
                          = Ok (value, <[lc := o']> h1))
      as (Hu1 & Hagain).
    { unfold enumerate in Hloop |- *. destruct value as [| | | |s| | |l]; try done.
      - eapply enumerate_str_framed in Hloop as (-> & Hu1 & Hagain); eauto.
      - assert (l <> lc) as Hl by congruence.
        destruct (h !! l) as [[d|xs]|] eqn:Hhl; try done.
        eapply enumerate_list_framed in Hloop as (-> & Hu1 & Hagain); eauto.
        split; [done|]. intros o'. by rewrite lookup_insert_ne, Hhl. }
    do 2 (split; [done|]). intros o' _. rewrite validate_TList.
    simpl run_validators. cbn [mbind result_bind]. by rewrite Hagain.
  - (* object *)
    apply no_validators_children in Hnv as [-> Hcs].
    rewrite validate_TObject. simpl run_validators. cbn [mbind result_bind].
    destruct cs as [|c cs'].
    { intros [= <- <-]. do 2 (split; [done|]). intros o' _.
      by rewrite validate_TObject. }
    remember (c :: cs') as cs eqn:Ecs.
    assert (Hbodies : Forall (fun c => framed lc (writes_key c.2) (validate fuel c.2)) cs).
    { clear Ecs. induction IH as [|c0 cs0 IH0 _ IHrec]; [constructor|].
      apply Forall_cons_1 in Hcs as [Hc0 Hcs0]. constructor; auto. }
    intros Hrun. inv_bind Hrun as [value1 h1] Hitems.
    apply (Object_items_framed _ _ Hbodies) in Hitems as (-> & Hu1 & Hagain);
      [|done..].
    inv_bind Hrun as h2 Hset. injection Hrun as <- <-.
    split; [done|]. split; [eauto using setitem_unreferenced|].
    intros o' Ho. rewrite validate_TObject. simpl run_validators.
    cbn [mbind result_bind]. subst cs. rewrite Hagain. cbn [mbind result_bind].
    erewrite setitem_framed; [done..|]. intros E. by apply Ho.
  - (* choice *)
    done.
  - (* case *)
    rewrite validate_TCase. destruct cs as [|[name child] cs']; [done|].
    apply Forall_cons_1 in IH as [IHchild _]. simpl in IHchild.
    assert (Hchild : no_validators child) by (simpl in Hnv; tauto).
    intros Hrun. inv_bind Hrun as [value1 h1] Hc.
    apply (IHchild Hchild fuel) in Hc as (-> & Hu1 & Hagain); [|done..].
    inv_bind Hrun as h2 Hset. injection Hrun as <- <-.
    split; [done|]. split; [eauto using setitem_unreferenced|].
    intros o' Ho. rewrite validate_TCase.
    rewrite Hagain by (intros E _; by apply Ho). cbn [mbind result_bind].
    erewrite setitem_framed; [done..|]. intros E. by apply Ho.
Qed.

(** Without validators the container that comes back is the container
    that went in. *)
Lemma validate_returns_container n :
  no_validators n ->
  forall fuel key value schema h schema' h',
    validate fuel n key value schema h = Ok (schema', h') -> schema' = schema.
Proof.
  destruct n as [ty vs|vs cs|vs cs|on_fail cs|vs cs];
    intros Hnv fuel key value schema h schema' h'; try done.
  - simpl in Hnv. subst vs. rewrite validate_Scalar. intros Hrun.
    inv_bind Hrun as typed Hty. simpl in Hrun. by injection Hrun as <- <-.
  - apply no_validators_children in Hnv as [-> _]. rewrite validate_TList.
    simpl run_validators. cbn [mbind result_bind].
    destruct cs as [|[name item] cs']; [by intros [= <- <-]|].
    intros Hrun. inv_bind Hrun as [value1 h1] Hloop. by injection Hrun as <- <-.
  - apply no_validators_children in Hnv as [-> _]. rewrite validate_TObject.
    simpl run_validators. cbn [mbind result_bind].
    destruct cs as [|c cs']; [by intros [= <- <-]|].
    intros Hrun. inv_bind Hrun as [value1 h1] Hitems.
    inv_bind Hrun as h2 Hset. by injection Hrun as <- <-.
  - rewrite validate_TCase. destruct cs as [|[name child] cs']; [done|].
    intros Hrun. inv_bind Hrun as [value1 h1] Hc.
    inv_bind Hrun as h2 Hset. by injection Hrun as <- <-.
Qed.

Lemma Object_items_returns_value fuel cs :
  Forall (fun c => no_validators c.2) cs ->
  forall value h value' h',
    Object_items fuel cs value h = Ok (value', h') -> value' = value.
Proof.
  induction 1 as [|[ck cn] cs Hc _ IH]; intros value h value' h'; simpl.
  - by intros [= <- <-].
  - intros Hrun. inv_bind Hrun as fetched Hget.
    inv_bind Hrun as [value1 h1] Hchild.
    apply validate_returns_container in Hchild as ->; eauto.
Qed.

(** A node that assigns to the key leaves the value under it. *)
Lemma validate_writes_key fuel n key value schema h schema' h' :
  no_validators n -> writes_key n ->
  validate fuel n key value schema h = Ok (schema', h') ->
  getitem schema key h' = Ok value.
Proof.
  intros Hnv Hw. destruct n as [ty vs|vs cs|vs [|c cs]|on_fail cs|vs cs]; try done.
  - apply no_validators_children in Hnv as [-> Hcs].
    rewrite validate_TObject. simpl run_validators. cbn [mbind result_bind].
    intros Hrun. inv_bind Hrun as [value1 h1] Hitems.
    inv_bind Hrun as h2 Hset. injection Hrun as <- <-.
    apply Object_items_returns_value in Hitems as ->; [|done].
    eauto using getitem_setitem.
  - rewrite validate_TCase. destruct cs as [|[name child] cs']; [done|].
    intros Hrun. inv_bind Hrun as [value1 h1] Hc.
    inv_bind Hrun as h2 Hset. injection Hrun as <- <-.
    eauto using getitem_setitem.
Qed.

End framed_facts.

(** C8. Let no validator be bound to the node or below it (so the
    tree has no choice node), and let the container be as the engine
    has it: an object of its own, created for the call, which is not
    the value and which nothing in the store refers to; or, as in every
    call the engine makes on a child and in every repeated call, a
    container that already holds the value under the key (or lacks the
    key while the value is [None]).  For a node that never assigns to
    [container[key]] nothing is asked of the container.  Then a
    successful [validate] returns the container it was given, and
    running it again on the store it left returns the same container
    and leaves that store unchanged: the corrected container is a
    fixed point. *)
Theorem validate_fixed_point `{Host} {V : Type} `{Validator V}
    fuel (n : node V) key value schema h schema' h' :
  no_validators n ->
  (writes_key n -> holds schema key value h \/ detached schema value h) ->
  validate fuel n key value schema h = Ok (schema', h') ->
  schema' = schema
  /\ validate fuel n key value schema h' = Ok (schema, h').
Proof.
  intros Hnv Hplace Hrun.
  pose proof (validate_returns_container n Hnv _ _ _ _ _ _ _ Hrun) as ->.
  split; [done|].
  assert (Hsettle : forall h0,
    (writes_key n -> holds schema key value h0) ->
    validate fuel n key value schema h0 = Ok (schema, h') ->
    validate fuel n key value schema h' = Ok (schema, h')).
  { intros h0 Hh Hr.
    destruct (validate_settles n Hnv _ _ _ _ _ _ _ Hh Hr) as (_ & _ & Hagain).
    apply Hagain, heap_le_refl. }
  assert (Hcases : ~ writes_key n \/ holds schema key value h
                   \/ (writes_key n /\ detached schema value h)).
  { destruct n as [| |? [|]| |]; simpl in *; tauto. }
  destruct Hcases as [Hw|[Hh|[Hw (lc & -> & Hv & Hu)]]].
  - apply (Hsettle h); [tauto|done].
  - apply (Hsettle h); [auto|done].
  - pose proof (validate_writes_key _ _ _ _ _ _ _ _ Hnv Hw Hrun) as Hget.
    destruct (h' !! lc) as [o1|] eqn:Hlc;
      [|by unfold Store.getitem in Hget; rewrite Hlc in Hget].
    assert (Hget1 : Store.getitem (VRef lc) key {[ lc := o1 ]} = Ok value).
    { rewrite <- Hget. unfold Store.getitem.
      by rewrite Hlc, lookup_singleton_eq. }
    destruct (validate_framed lc n Hnv fuel _ _ _ _ _ _ Hv Hu Hrun)
      as (_ & _ & Hagain).
    specialize (Hagain o1 (fun _ _ => Hget1)).
    rewrite (insert_id h' lc o1 Hlc) in Hagain.
    apply (Hsettle (<[lc := o1]> h)); [|done].
    intros _. left. by rewrite getitem_insert_eq.
Qed.

Lemma validate_fixed_point_witness :
  let h' := <[0%nat := ODict [(KStr "out", VRef 1)]]> Sample.store_hi in
  VRef 0 = VRef 0
  /\ Sample.validate 0 Sample.object_ab (VStr "out") (VRef 1) (VRef 0) h'
     = Ok (VRef 0, h').
Proof.
  intros h'.
  apply (validate_fixed_point (H := Sample.host) (H0 := Sample.validators)
           0 Sample.object_ab (VStr "out") (VRef 1) (VRef 0) Sample.store_hi).
  - repeat split.
  - intros _. right. exists 0%nat. split; [done|]. split; [done|].
    intros l o Hl. unfold Sample.store_hi in Hl.
    apply lookup_insert_Some in Hl as [[<- <-]|[_ Hl]]; [by intros ?%elem_of_nil|].
    apply lookup_singleton_Some in Hl as [<- <-]. simpl.
    by intros [=]%list_elem_of_singleton.
  - vm_compute. reflexivity.
Defined.

(** The condition on the container is needed.  A call that passes one
    dict as the value and as the container, which the engine never
    does, is not a fixed point: with the mapping [r = {"k": {"z":
    "1"}}] in both places the first call succeeds and leaves
    [r = {"k": r}]; the second call, on that store, adds ["z": None] to
    [r]. *)
Lemma validate_changes_aliased_container :
  let h1 := <[0%nat := ODict [(KStr "k", VRef 0)]]> Sample.store_kz in
  let h2 := <[0%nat := ODict [(KStr "k", VRef 0); (KStr "z", VNone)]]> Sample.store_kz in
  no_validators Sample.object_kz
  /\ Sample.validate 0 Sample.object_kz (VStr "k") (VRef 0) (VRef 0) Sample.store_kz
     = Ok (VRef 0, h1)
  /\ Sample.validate 0 Sample.object_kz (VStr "k") (VRef 0) (VRef 0) h1
     = Ok (VRef 0, h2)
  /\ h2 <> h1.
Proof.
  intros h1 h2. split; [by repeat split|].
  split; [vm_compute; reflexivity|]. split; [vm_compute; reflexivity|].
  intros E. apply (f_equal (fun h : heap => h !! 0%nat)) in E.
  subst h1 h2. rewrite !lookup_insert_eq in E. discriminate.
Qed.

(** * Further properties of the module *)

(** ** Tokens *)

Section token_facts.
Import PyStr FormatAttr.

Lemma re_split_not_nil is_sep prev s : re_split is_sep prev s <> [].
Proof.
  revert prev. induction s as [|c s IH]; intros prev; simpl; [done|].
  destruct (is_sep prev c s); [done|]. by destruct (re_split is_sep (Some c) s).
Qed.

Lemma concat_cons_cons sep (x y : string) l :
  String.concat sep (x :: y :: l) = x ++ sep ++ String.concat sep (y :: l).
Proof. reflexivity. Qed.

Lemma re_split_token_join prev s :
  String.concat ";" (re_split token_sep prev s) = s.
Proof.
  revert prev. induction s as [|c s IH]; intros prev; [done|]. simpl.
  specialize (IH (Some c)). pose proof (re_split_not_nil token_sep (Some c) s) as Hne.
  destruct (token_sep prev c s) eqn:Hsep.
  - apply andb_true_iff in Hsep as [Hc%Ascii.eqb_eq _]. subst c.
    destruct (re_split token_sep (Some ";"%char) s) as [|p ps]; [done|].
    rewrite concat_cons_cons, IH. reflexivity.
  - destruct (re_split token_sep (Some c) s) as [|p [|q ps]]; [done| |].
    + simpl in *. by rewrite IH.
    + rewrite concat_cons_cons in IH |- *. by rewrite <- IH.
Qed.

Lemma re_split_no_semicolon post :
  contains ";" post = false ->
  forall prev, re_split token_sep prev post = [post].
Proof.
  induction post as [|c post IH]; intros Hc prev; [done|]. simpl in *.
  apply orb_false_elim in Hc as [Hc Hpost]. unfold token_sep. rewrite Hc. simpl.
  by rewrite IH.
Qed.

Lemma next_brace_closes_span body post :
  contains "{" body = false -> contains "}" body = false ->
  next_brace_closes (body ++ String "}" post) = true.
Proof.
  induction body as [|c body IH]; simpl; [done|].
  intros [Hc1 Hb1]%orb_false_elim [Hc2 Hb2]%orb_false_elim.
  rewrite Hc2, Hc1. auto.
Qed.

Lemma re_split_in_span body post :
  contains "{" body = false -> contains "}" body = false ->
  (forall prev, re_split token_sep prev (String "}" post) = [String "}" post]) ->
  forall prev,
    re_split token_sep prev (body ++ String "}" post) = [body ++ String "}" post].
Proof.
  intros H1 H2 Hpost. induction body as [|c body IH]; intros prev; [apply Hpost|].
  simpl in *. apply orb_false_elim in H1 as [Hc1 Hb1].
  apply orb_false_elim in H2 as [Hc2 Hb2].
  unfold token_sep. rewrite next_brace_closes_span by done.
  rewrite andb_false_r. by rewrite IH.
Qed.

Lemma re_split_prefix pre rest :
  contains ";" pre = false ->
  (forall prev, re_split token_sep prev rest = [rest]) ->
  forall prev, re_split token_sep prev (pre ++ rest) = [pre ++ rest].
Proof.
  intros Hc Hrest. induction pre as [|c pre IH]; intros prev; [apply Hrest|].
  simpl in *. apply orb_false_elim in Hc as [Hc Hpre].
  unfold token_sep. rewrite Hc. simpl. by rewrite IH.
Qed.

End token_facts.

(** X1. Splitting a directive loses nothing but empty tokens: the pieces
    the pattern cuts, joined again with [";"], are the directive, the
    tokens are the non-empty pieces in their order, and no token is
    empty. *)
Theorem tokens_lossless (fa : FormatAttr.t) (f : string) :
  FormatAttr.format fa = Some f ->
  String.concat ";" (FormatAttr.re_split FormatAttr.token_sep None f) = f
  /\ FormatAttr.tokens fa
     = List.filter PyStr.nonempty (FormatAttr.re_split FormatAttr.token_sep None f)
  /\ Forall (fun t => t <> EmptyString) (FormatAttr.tokens fa).
Proof.
  intros Hf. split; [apply re_split_token_join|].
  unfold FormatAttr.tokens. rewrite Hf. split; [done|].
  apply Forall_forall. intros t Ht%list_elem_of_In%filter_In. by destruct t, Ht.
Qed.

Lemma tokens_lossless_witness :
  String.concat ";"
    (FormatAttr.re_split FormatAttr.token_sep None "a: {1;2}; b;;c")
  = "a: {1;2}; b;;c"
  /\ FormatAttr.tokens (FormatAttr.Build (Some "a: {1;2}; b;;c")
                          (FormatAttr.Element "string" []))
     = ["a: {1;2}"; " b"; "c"].
Proof.
  destruct (tokens_lossless
              (FormatAttr.Build (Some "a: {1;2}; b;;c") (FormatAttr.Element "string" []))
              "a: {1;2}; b;;c" eq_refl) as (Hjoin & Htok & _).
  split; [exact Hjoin|]. rewrite Htok. reflexivity.
Defined.

(** X2. A brace span is never cut: when the only semicolons of a
    directive stand between one opening brace and its closing brace,
    with no other brace in between, the directive is a single token. *)
Theorem tokens_keep_brace_span (e : FormatAttr.element) (pre body post : string) :
  PyStr.contains ";" pre = false ->
  PyStr.contains "{" body = false ->
  PyStr.contains "}" body = false ->
  PyStr.contains ";" post = false ->
  FormatAttr.tokens
    (FormatAttr.Build (Some (pre ++ String "{" (body ++ String "}" post))) e)
  = [pre ++ String "{" (body ++ String "}" post)].
Proof.
  intros Hpre Hb1 Hb2 Hpost. unfold FormatAttr.tokens. simpl.
  rewrite re_split_prefix; [|done|].
  - simpl. by destruct pre.
  - intros prev. apply (re_split_prefix (String "{" EmptyString)); [done|].
    apply re_split_in_span; [done..|].
    intros prev'. apply (re_split_no_semicolon (String "}" post)).
    simpl. by rewrite Hpost.
Qed.

Lemma tokens_keep_brace_span_witness :
  FormatAttr.tokens
    (FormatAttr.Build (Some "is-in: {[1; 2]} x") (FormatAttr.Element "string" []))
  = ["is-in: {[1; 2]} x"].
Proof.
  apply (tokens_keep_brace_span (FormatAttr.Element "string" [])
           "is-in: " "[1; 2]" " x"); reflexivity.
Defined.

(** ** Parsed directives *)

Section adict_key_facts.
Context {K A : Type} `{EqDecision K}.
Implicit Types (d : list (K * A)) (k : K).

Lemma adict_set_keys d k v :
  map fst (adict_set d k v) =
  if bool_decide (k ∈ map fst d) then map fst d else (map fst d ++ [k])%list.
Proof.
  induction d as [|[k' v'] d IH]; simpl; [done|].
  destruct (decide (k' = k)) as [->|Hne]; simpl.
  - rewrite bool_decide_eq_true_2; [done|left].
  - rewrite IH. destruct (decide (k ∈ map fst d)) as [Hin|Hin].
    + rewrite !bool_decide_eq_true_2; [done|by right|done].
    + rewrite !bool_decide_eq_false_2; [done| |done].
      intros [E|E]%elem_of_cons; congruence.
Qed.

Lemma adict_set_NoDup d k v :
  NoDup (map fst d) -> NoDup (map fst (adict_set d k v)).
Proof.
  intros Hd. rewrite adict_set_keys. case_bool_decide as Hin; [done|].
  apply NoDup_app. split; [done|]. split; [|apply NoDup_singleton].
  by intros x Hx ->%list_elem_of_singleton.
Qed.

End adict_key_facts.

Section parse_facts.
Import PyStr FormatAttr.
Variable eval : string -> result pyval.

Lemma split_once_before sep s a b :
  split_once sep s = (a, b) -> contains sep a = false.
Proof.
  revert a b. induction s as [|c s IH]; intros a b; simpl.
  - by intros [= <- <-].
  - destruct (Ascii.eqb c sep) eqn:Hc; [by intros [= <- <-]|].
    destruct (split_once sep s) as [a' b']. intros [= <- <-]. simpl.
    rewrite Hc. eauto.
Qed.

Lemma parse_token_name token name args :
  parse_token eval token = Ok (name, args) ->
  exists before rest, split_once ":" (strip token) = (before, rest)
                      /\ name = strip before.
Proof.
  unfold parse_token. destruct (split_once ":" (strip token)) as [before [after|]].
  - intros Hp. inv_bind Hp as parsed Hargs. injection Hp as <- <-. eauto.
  - intros [= <- <-]. eauto.
Qed.

Lemma parse_tokens_app ts1 ts2 acc :
  parse_tokens eval (ts1 ++ ts2) acc =
  (acc1 ← parse_tokens eval ts1 acc; parse_tokens eval ts2 acc1).
Proof.
  revert acc. induction ts1 as [|t ts1 IH]; intros acc; [done|]. simpl.
  destruct (parse_token eval t) as [[name args]| | |]; [simpl|done..]. apply IH.
Qed.

(** Tokens that do not name [name] leave its entry alone. *)
Lemma parse_tokens_other ts name : forall acc d,
  parse_tokens eval ts acc = Ok d ->
  (forall token args', token ∈ ts -> parse_token eval token <> Ok (name, args')) ->
  adict_get d name = adict_get acc name.
Proof.
  induction ts as [|t ts IH]; intros acc d; simpl; [by intros [= <-]|].
  intros Hp Hother. inv_bind Hp as [name0 args0] Ht.
  rewrite (IH _ _ Hp) by (intros token args' Hin; apply Hother; by right).
  apply adict_get_set_ne. intros ->. by apply (Hother t args0); [left|].
Qed.

Lemma parse_tokens_keys ts : forall acc d,
  parse_tokens eval ts acc = Ok d ->
  (NoDup (map fst acc) -> NoDup (map fst d))
  /\ (forall name args,
        adict_get d name = Some args ->
        adict_get acc name = Some args
        \/ exists token, token ∈ ts /\ parse_token eval token = Ok (name, args)).
Proof.
  induction ts as [|t ts IH]; intros acc d; simpl.
  - intros [= <-]. auto.
  - intros Hp. inv_bind Hp as [name0 args0] Ht.
    apply IH in Hp as (Hnodup & Hfrom). split.
    + intros Hacc. by apply Hnodup, adict_set_NoDup.
    + intros name args Hd. destruct (Hfrom _ _ Hd) as [Hset|(token & Hin & Htok)].
      * destruct (decide (name0 = name)) as [->|Hne].
        -- rewrite adict_get_set_eq in Hset. injection Hset as <-.
           right. exists t. split; [left|done].
        -- rewrite adict_get_set_ne in Hset by done. auto.
      * right. exists token. split; [by right|done].
Qed.

End parse_facts.

(** X3. The parsed directive has one entry per validator name: no name
    occurs twice, every entry comes from a token, and when several
    tokens carry the same name the arguments of the last one are kept. *)
Theorem parse_last_wins (eval : string -> result pyval) (fa : FormatAttr.t)
    (d : list (string * list pyval)) :
  FormatAttr.parse eval fa = Ok d ->
  NoDup (map fst d)
  /\ (forall name args,
        adict_get d name = Some args ->
        exists token, token ∈ FormatAttr.tokens fa
                      /\ FormatAttr.parse_token eval token = Ok (name, args))
  /\ (forall ts1 token ts2 name args,
        FormatAttr.tokens fa = (ts1 ++ token :: ts2)%list ->
        FormatAttr.parse_token eval token = Ok (name, args) ->
        (forall token' args', token' ∈ ts2 ->
           FormatAttr.parse_token eval token' <> Ok (name, args')) ->
        adict_get d name = Some args).
Proof.
  unfold FormatAttr.parse. destruct (FormatAttr.format fa) as [f|] eqn:Hf.
  - intros Hp. destruct (parse_tokens_keys eval _ _ _ Hp) as (Hnodup & Hfrom).
    split; [apply Hnodup; constructor|]. split.
    + intros name args Hd. by destruct (Hfrom _ _ Hd) as [?|?].
    + intros ts1 token ts2 name args Hts Htok Hlater.
      rewrite Hts, parse_tokens_app in Hp. inv_bind Hp as acc1 Hp1.
      simpl in Hp. rewrite Htok in Hp. simpl in Hp.
      rewrite (parse_tokens_other eval _ name _ _ Hp) by done.
      apply adict_get_set_eq.
  - intros [= <-]. split; [constructor|]. split; [done|].
    intros ts1 token ts2 name args Hts. unfold FormatAttr.tokens in Hts.
    rewrite Hf in Hts. by destruct ts1.
Qed.

Lemma parse_last_wins_witness :
  FormatAttr.parse Arith.eval
    (FormatAttr.Build (Some "a: 1; b; a: 2 3") (FormatAttr.Element "string" []))
  = Ok [("a", [VStr "2"; VStr "3"]); ("b", [])]
  /\ adict_get [("a", [VStr "2"; VStr "3"]); ("b", @nil pyval)] "a"
     = Some [VStr "2"; VStr "3"].
Proof.
  assert (Hp : FormatAttr.parse Arith.eval
            (FormatAttr.Build (Some "a: 1; b; a: 2 3") (FormatAttr.Element "string" []))
          = Ok [("a", [VStr "2"; VStr "3"]); ("b", [])]) by reflexivity.
  split; [exact Hp|].
  apply (proj2 (proj2 (parse_last_wins Arith.eval _ _ Hp))
           ["a: 1"; " b"] " a: 2 3" []); [reflexivity..|].
  intros token' args' Hin. by apply elem_of_nil in Hin.
Defined.

(** X4. The validator name [parse_token] returns is trimmed and holds
    no colon. *)
Theorem parse_token_name_clean (eval : string -> result pyval)
    (token name : string) (args : list pyval) :
  FormatAttr.parse_token eval token = Ok (name, args) ->
  PyStr.contains ":" name = false /\ PyStr.strip name = name.
Proof.
  intros (before & rest & Hsplit & ->)%parse_token_name.
  split; [|apply strip_idemp].
  eapply contains_strip, split_once_before, Hsplit.
Qed.

Lemma parse_token_name_clean_witness :
  PyStr.contains ":" "is-in" = false /\ PyStr.strip "is-in" = "is-in".
Proof.
  apply (parse_token_name_clean Arith.eval " is-in : a:b {1+2}" "is-in"
           [VStr "a:b"; VInt 3]).
  reflexivity.
Defined.

(** ** Binding the whole directive *)

(** X5. The result of the binding loop follows the directive: on
    success the unregistered list has grown by exactly the names that
    are not registered for the tag, in directive order, and the list of
    validators by one instance for each registered name; in strict mode
    a success means that every name is registered. *)
Theorem bind_entries_partition {V : Type} `{Catalog V}
    (strict : bool) (e : FormatAttr.element) (registered : list string)
    (parsed : list (string * list pyval))
    (vs0 vs : list V) (us0 us : list string) :
  types_to_validators (FormatAttr.tag e) = Ok registered ->
  Binding.bind_entries strict e parsed vs0 us0 = Ok (vs, us) ->
  us = (us0 ++ filter (fun n => n ∉ registered) (map fst parsed))%list
  /\ length vs
     = (length vs0 + length (filter (fun n => n ∈ registered) (map fst parsed)))%nat
  /\ (strict = true -> Forall (fun n => n ∈ registered) (map fst parsed)).
Proof.
  intros Ht. revert vs0 us0.
  induction parsed as [|[name args] parsed IH]; intros vs0 us0; simpl.
  - intros [= <- <-]. rewrite app_nil_r. split; [done|]. split; [lia|constructor].
  - rewrite Ht. simpl. destruct (decide (name ∈ registered)) as [Hin|Hin].
    + rewrite bool_decide_eq_true_2 by done. simpl. intros Hb.
      inv_bind Hb as ctor Hreg. inv_bind Hb as v Hv.
      apply IH in Hb as (-> & Hlen & Hstrict).
      rewrite filter_cons_False by tauto. rewrite filter_cons_True by done.
      split; [done|]. split; [rewrite Hlen, length_app; simpl; lia|].
      intros Hs. constructor; auto.
    + rewrite bool_decide_eq_false_2 by done. simpl. destruct strict; [done|].
      intros Hb. apply IH in Hb as (-> & Hlen & Hstrict).
      rewrite filter_cons_True by done. rewrite filter_cons_False by done.
      split; [by rewrite <- app_assoc|]. split; [done|]. done.
Qed.

Lemma bind_entries_partition_witness :
  ["is-reachable"]
  = ([] ++ filter (fun n => n ∉ ["pass"; "one-of"])
             (map fst [("pass", @nil pyval); ("is-reachable", []);
                       ("one-of", [VStr "a"])]))%list.
Proof.
  apply (proj1 (bind_entries_partition (H := Sample.catalog) false
           (FormatAttr.Element "string" []) ["pass"; "one-of"]
           [("pass", []); ("is-reachable", []); ("one-of", [VStr "a"])]
           [] [Sample.Pass; Sample.OneOf ["a"]] [] ["is-reachable"]
           eq_refl eq_refl)).
Defined.

(** ** Rendering *)

Section prompt_facts.

Lemma append_assoc (a b c : string) : (a ++ b) ++ c = a ++ b ++ c.
Proof.
  induction a as [|x a IH]; [done|].
  change (String x ((a ++ b) ++ c) = String x (a ++ b ++ c)). by rewrite IH.
Qed.

Lemma concat_app_nonempty sep (l1 l2 : list string) :
  l1 <> [] -> l2 <> [] ->
  String.concat sep (l1 ++ l2) = String.concat sep l1 ++ sep ++ String.concat sep l2.
Proof.
  intros H1 H2. induction l1 as [|x [|y l1] IH]; [done| |].
  - destruct l2; [done|]. reflexivity.
  - change (String.concat sep ((x :: y :: l1) ++ l2))
      with (x ++ sep ++ String.concat sep ((y :: l1) ++ l2)).
    rewrite IH by done. change (String.concat sep (x :: y :: l1))
      with (x ++ sep ++ String.concat sep (y :: l1)).
    by rewrite !append_assoc.
Qed.

Lemma nonempty_true s : s <> EmptyString -> PyStr.nonempty s = true.
Proof. by destruct s. Qed.

End prompt_facts.

(** X6. [to_prompt] returns the empty string when there is no format
    attribute, even if [get_validators] has not been called; with a
    format it raises [AttributeError] until [get_validators] has been
    called.  Afterwards it is the rendered validators, in their order,
    followed by the unregistered names, all joined by ["; "], provided
    that neither part is a non-empty list that renders to the empty
    string. *)
Theorem to_prompt_joins {V : Type} `{Renderer V} (fa : FormatAttr.t)
    (with_keywords : bool) :
  (FormatAttr.format fa = None ->
   forall bound, Prompt.FormatAttr_to_prompt fa bound with_keywords = Ok EmptyString)
  /\ (FormatAttr.format fa <> None ->
      Prompt.FormatAttr_to_prompt fa None with_keywords = Raise AttributeError)
  /\ (forall validators unregistered rendered,
        FormatAttr.format fa <> None ->
        Prompt.render_all with_keywords validators = Ok rendered ->
        rendered = [] \/ String.concat "; " rendered <> EmptyString ->
        unregistered = [] \/ String.concat "; " unregistered <> EmptyString ->
        Prompt.FormatAttr_to_prompt fa (Some (validators, unregistered)) with_keywords
        = Ok (String.concat "; " (rendered ++ unregistered))).
Proof.
  unfold Prompt.FormatAttr_to_prompt. split; [by intros ->|].
  split; [by destruct (FormatAttr.format fa)|].
  intros vs us ps Hf Hr Hps Hus. destruct (FormatAttr.format fa); [|done].
  rewrite Hr. simpl. f_equal.
  destruct Hus as [->|Hus].
  - simpl. rewrite app_nil_r, andb_false_r. done.
  - rewrite (nonempty_true _ Hus). destruct Hps as [->|Hps]; [done|].
    rewrite (nonempty_true _ Hps). simpl.
    rewrite concat_app_nonempty; [done|by intros ->..].
Qed.

Lemma to_prompt_joins_witness :
  Prompt.FormatAttr_to_prompt
    (FormatAttr.Build (Some "pass; is-reachable; one-of: a b")
       (FormatAttr.Element "string" []))
    (Some ([Sample.Pass; Sample.OneOf ["a"; "b"]], ["is-reachable"])) false
  = Ok "pass; one-of: a b; is-reachable".
Proof.
  apply (proj2 (proj2 (to_prompt_joins (H := SampleBuild.renderer)
           (FormatAttr.Build (Some "pass; is-reachable; one-of: a b")
              (FormatAttr.Element "string" [])) false))
           [Sample.Pass; Sample.OneOf ["a"; "b"]] ["is-reachable"]
           ["pass"; "one-of: a b"]);
    [done | reflexivity | right; done | right; done].
Defined.

(** ** Coercions *)

(** X7. The coercions of the string-like, integer and boolean classes
    are stable: coercing a coerced value returns it again.  An integer
    node yields [None] or an [int], a boolean node [None] or a [bool]. *)
Theorem from_str_stable `{Host} (ty : scalar_type) (v r : pyval) :
  match ty with TFloat | TDate _ | TTime _ _ => False | _ => True end ->
  from_str ty v = Ok r ->
  from_str ty r = Ok r
  /\ (ty = TInteger -> r = VNone \/ exists z, r = VInt z)
  /\ (ty = TBoolean -> r = VNone \/ exists b, r = VBool b).
Proof.
  intros Hty Hv. destruct ty; try done; simpl in *; try by simplify_eq.
  - assert (r = VNone \/ exists z, r = VInt z) as Hr.
    { destruct v; simplify_eq; eauto; simpl in Hv; simplify_eq; eauto.
      unfold PyInt.of_str in Hv. repeat case_match; simplify_eq; eauto. }
    split; [|split; [done|discriminate]].
    by destruct Hr as [->|[z ->]].
  - assert (r = VNone \/ exists b, r = VBool b) as Hr.
    { unfold Boolean_from_str in Hv. repeat case_match; simplify_eq; eauto. }
    split; [|split; [discriminate|done]].
    by destruct Hr as [->|[b ->]].
Qed.

Lemma from_str_stable_witness :
  from_str TInteger (VInt 42) = Ok (VInt 42)
  /\ from_str TBoolean (VBool true) = Ok (VBool true).
Proof.
  split.
  - apply (from_str_stable (H := Sample.host) TInteger (VStr " 42 ") (VInt 42) I).
    reflexivity.
  - apply (from_str_stable (H := Sample.host) TBoolean (VStr "TRUE") (VBool true) I).
    reflexivity.
Defined.

(** ** Lists of scalars *)

Section list_scalar_facts.
Context `{Host} {V : Type} `{Validator V}.

Lemma enumerate_scalars_ok fuel0 ty l xs h : forall fuel i,
  h !! l = Some (OList xs) ->
  (length xs <= i + fuel)%nat ->
  Forall (fun x => is_ok (from_str ty x) = true) (drop i xs) ->
  enumerate_list (validate fuel0 (Scalar ty ([] : list V))) fuel l i (VRef l) h
  = Ok (VRef l, h).
Proof.
  induction fuel as [|fuel IH]; intros i Hl Hlen Hall;
    destruct (xs !! i) as [item|] eqn:Hi;
    try (by erewrite enumerate_list_stop).
  - apply lookup_lt_Some in Hi. lia.
  - erewrite enumerate_list_step by done.
    rewrite (drop_S _ _ _ Hi) in Hall. apply Forall_cons_1 in Hall as [Hitem Hall].
    rewrite validate_Scalar. destruct (from_str ty item); try done.
    cbn [mbind result_bind run_validators]. apply IH; [done|lia|done].
Qed.

Lemma enumerate_scalars_inv fuel0 ty l xs h : forall fuel i value' h',
  h !! l = Some (OList xs) ->
  enumerate_list (validate fuel0 (Scalar ty ([] : list V))) fuel l i (VRef l) h
  = Ok (value', h') ->
  value' = VRef l /\ h' = h
  /\ Forall (fun x => is_ok (from_str ty x) = true) (drop i xs).
Proof.
  induction fuel as [|fuel IH]; intros i value' h' Hl;
    destruct (xs !! i) as [item|] eqn:Hi;
    try (erewrite enumerate_list_stop by done; intros [= <- <-];
         rewrite drop_ge by (by apply lookup_ge_None); by auto).
  - simpl. by rewrite Hl, Hi.
  - erewrite enumerate_list_step by done.
    rewrite validate_Scalar. destruct (from_str ty item) eqn:Hitem; try done.
    cbn [mbind result_bind run_validators].
    intros Hrun. apply IH in Hrun as (-> & -> & Hall); [|done].
    rewrite (drop_S _ _ _ Hi). do 2 (split; [done|]). constructor; [|done].
    by rewrite Hitem.
Qed.

End list_scalar_facts.

(** X8. A list node without validators whose item type is a scalar
    without validators only checks the items: on a stored list it
    succeeds exactly when every item can be coerced, and then it
    returns the container and leaves the store, the list included, as
    they were (the coerced items are not stored). *)
Theorem list_of_scalars_only_checks `{Host} {V : Type} `{Validator V}
    (fuel : nat) (name : string) (ty : scalar_type)
    (rest : list (string * node V)) (key schema : pyval) (l : nat)
    (xs : list pyval) (h : heap) :
  h !! l = Some (OList xs) ->
  (length xs <= fuel)%nat ->
  forall schema' h',
    validate fuel (TList [] ((name, Scalar ty []) :: rest)) key (VRef l) schema h
    = Ok (schema', h')
    <-> Forall (fun x => is_ok (from_str ty x) = true) xs
        /\ schema' = schema /\ h' = h.
Proof.
  intros Hl Hlen schema' h'. rewrite validate_TList. simpl run_validators.
  cbn [mbind result_bind]. unfold enumerate. rewrite Hl. split.
  - intros Hrun. inv_bind Hrun as [value1 h1] Hloop. injection Hrun as <- <-.
    apply (enumerate_scalars_inv _ _ _ xs) in Hloop as (_ & -> & Hall); [|done].
    by rewrite drop_0 in Hall.
  - intros (Hall & -> & ->).
    by rewrite (enumerate_scalars_ok _ _ _ xs) by (rewrite ?drop_0; done || lia).
Qed.

Lemma list_of_scalars_only_checks_witness :
  Sample.validate 2 (TList [] [("item", Scalar TInteger [])]) (VStr "out")
    (VRef 1) (VRef 0)
    {[ 0%nat := ODict []; 1%nat := OList [VStr "1"; VStr "2"] ]}
  = Ok (VRef 0, {[ 0%nat := ODict []; 1%nat := OList [VStr "1"; VStr "2"] ]}).
Proof.
  apply (list_of_scalars_only_checks (H := Sample.host) (H0 := Sample.validators)
           2 "item" TInteger [] (VStr "out") (VRef 0) 1%nat
           [VStr "1"; VStr "2"]); [reflexivity | simpl; lia |].
  split; [|done]. repeat constructor.
Defined.

(** ** What validation keeps, and termination *)

Section keeps_facts.
Import Store.
Implicit Types (h : heap).

Lemma keeps_obj_refl o : keeps_obj o o.
Proof. destruct o; simpl; auto. Qed.

Lemma keeps_obj_trans o1 o2 o3 : keeps_obj o1 o2 -> keeps_obj o2 o3 -> keeps_obj o1 o3.
Proof. destruct o1, o2, o3; simpl; try done; [auto|congruence]. Qed.

Lemma keeps_refl h : keeps h h.
Proof. intros l. destruct (h !! l) eqn:E; eauto using keeps_obj_refl. Qed.

Lemma keeps_trans h1 h2 h3 : keeps h1 h2 -> keeps h2 h3 -> keeps h1 h3.
Proof.
  intros H12 H23 l. specialize (H12 l). specialize (H23 l).
  destruct (h1 !! l) as [o1|].
  - destruct H12 as (o2 & E2 & Ho2). rewrite E2 in H23.
    destruct H23 as (o3 & E3 & Ho3). eauto using keeps_obj_trans.
  - by rewrite H12 in H23.
Qed.

Lemma setitem_keeps c k v h h' : setitem c k v h = Ok h' -> keeps h h'.
Proof.
  unfold setitem. destruct c; try done.
  destruct (h !! l) as [[d|xs]|] eqn:Hl; [| |done].
  - destruct (as_key k) as [dk| | |]; simpl; try done. intros [= <-] l'.
    destruct (decide (l = l')) as [<-|Hne].
    + rewrite Hl, lookup_insert_eq. eexists; split; [done|]. simpl.
      intros k' Hk'. destruct (decide (dk = k')) as [<-|Hdk].
      * by rewrite adict_get_set_eq.
      * by rewrite adict_get_set_ne.
    + rewrite lookup_insert_ne by done.
      destruct (h !! l'); eauto using keeps_obj_refl.
  - destruct (as_index k) as [i| | |]; simpl; try done.
    destruct (norm_index _ _) as [n|]; [|done]. intros [= <-] l'.
    destruct (decide (l = l')) as [<-|Hne].
    + rewrite Hl, lookup_insert_eq. eexists; split; [done|]. simpl.
      apply length_insert.
    + rewrite lookup_insert_ne by done.
      destruct (h !! l'); eauto using keeps_obj_refl.
Qed.

Lemma keeps_list h h' l xs' :
  keeps h h' -> h' !! l = Some (OList xs') ->
  exists xs, h !! l = Some (OList xs) /\ length xs' = length xs.
Proof.
  intros Hk Hl. specialize (Hk l). destruct (h !! l) as [o|]; [|congruence].
  destruct Hk as (o' & E & Ho). rewrite Hl in E. injection E as <-.
  destruct o; simpl in Ho; [done|eauto].
Qed.

Lemma lists_within_keeps n h h' : keeps h h' -> lists_within n h -> lists_within n h'.
Proof.
  intros Hk Hw l xs' Hl. destruct (keeps_list _ _ _ _ Hk Hl) as (xs & Hxs & ->).
  eauto.
Qed.

Lemma setitem_never_out_of_fuel c k v h : setitem c k v h <> OutOfFuel.
Proof.
  unfold setitem. destruct c; try done. destruct (h !! l) as [[d|xs]|]; try done.
  - by destruct k.
  - destruct k; try done; simpl; by destruct (norm_index _ _).
Qed.

Lemma py_get_never_out_of_fuel value key h : py_get value key h <> OutOfFuel.
Proof.
  unfold py_get. destruct value; try done. by destruct (h !! l) as [[d|xs]|].
Qed.

End keeps_facts.

Section keeps_validate.
Context `{Host} {V : Type} `{Validator V}.
Import Store.
Implicit Types (n : node V) (cs : list (string * node V)) (h : heap).
Implicit Types (body : pyval -> pyval -> pyval -> heap -> result (pyval * heap)).

Lemma enumerate_str_keeps body :
  (forall k v c h c' h', body k v c h = Ok (c', h') -> keeps h h') ->
  forall s i value h value' h',
    enumerate_str body s i value h = Ok (value', h') -> keeps h h'.
Proof.
  intros Hbody. induction s as [|c s IH]; intros i value h value' h'; simpl.
  - intros [= <- <-]. apply keeps_refl.
  - intros Hrun. inv_bind Hrun as [value1 h1] Hb.
    eauto using keeps_trans.
Qed.

Lemma enumerate_list_keeps body l :
  (forall k v c h c' h', body k v c h = Ok (c', h') -> keeps h h') ->
  forall fuel i value h value' h',
    enumerate_list body fuel l i value h = Ok (value', h') -> keeps h h'.
Proof.
  intros Hbody. induction fuel as [|fuel IH]; intros i value h value' h'; simpl;
    destruct (h !! l) as [[d|xs]|]; try done;
    destruct (xs !! i) as [item|]; try done;
    try (intros [= <- <-]; apply keeps_refl).
  intros Hrun. inv_bind Hrun as [value1 h1] Hb. eauto using keeps_trans.
Qed.

Lemma Object_items_keeps fuel cs :
  Forall (fun c => forall k v s h s' h',
            validate fuel c.2 k v s h = Ok (s', h') -> keeps h h') cs ->
  forall value h value' h',
    Object_items fuel cs value h = Ok (value', h') -> keeps h h'.
Proof.
  induction 1 as [|[ck cn] cs Hc _ IH]; intros value h value' h'; simpl.
  - intros [= <- <-]. apply keeps_refl.
  - intros Hrun. inv_bind Hrun as fetched Hget.
    inv_bind Hrun as [value1 h1] Hchild. eauto using keeps_trans.
Qed.

(** Without validators, nothing but the final assignments changes the
    store. *)
Lemma validate_keeps n :
  no_validators n ->
  forall fuel key value schema h schema' h',
    validate fuel n key value schema h = Ok (schema', h') -> keeps h h'.
Proof.
  induction n as [ty vs|vs cs IH|vs cs IH|on_fail cs IH|vs cs IH]
    using node_children_ind; intros Hnv fuel key value schema h schema' h'.
  - simpl in Hnv. subst vs. rewrite validate_Scalar. intros Hrun.
    inv_bind Hrun as typed Hty. simpl in Hrun. injection Hrun as <- <-.
    apply keeps_refl.
  - apply no_validators_children in Hnv as [-> Hcs].
    rewrite validate_TList. simpl run_validators. cbn [mbind result_bind].
    destruct cs as [|[name item] cs']; [intros [= <- <-]; apply keeps_refl|].
    apply Forall_cons_1 in IH as [IHitem _]. apply Forall_cons_1 in Hcs as [Hitem _].
    simpl in IHitem, Hitem.
    intros Hrun. inv_bind Hrun as [value1 h1] Hloop. injection Hrun as <- <-.
    unfold enumerate in Hloop. destruct value as [| | | |s| | |l]; try done.
    + eapply enumerate_str_keeps in Hloop; eauto.
    + destruct (h !! l) as [[d|xs]|]; try done.
      eapply enumerate_list_keeps in Hloop; eauto.
  - apply no_validators_children in Hnv as [-> Hcs].
    rewrite validate_TObject. simpl run_validators. cbn [mbind result_bind].
    destruct cs as [|c cs']; [intros [= <- <-]; apply keeps_refl|].
    remember (c :: cs') as cs eqn:Ecs.
    assert (Hbodies : Forall (fun c => forall k v s h s' h',
              validate fuel c.2 k v s h = Ok (s', h') -> keeps h h') cs).
    { clear Ecs. induction IH as [|c0 cs0 IH0 _ IHrec]; [constructor|].
      apply Forall_cons_1 in Hcs as [Hc0 Hcs0]. constructor; eauto. }
    intros Hrun. inv_bind Hrun as [value1 h1] Hitems.
    inv_bind Hrun as h2 Hset. injection Hrun as <- <-.
    eauto using keeps_trans, Object_items_keeps, setitem_keeps.
  - done.
  - rewrite validate_TCase. destruct cs as [|[name child] cs']; [done|].
    apply Forall_cons_1 in IH as [IHchild _]. simpl in IHchild.
    assert (Hchild : no_validators child) by (simpl in Hnv; tauto).
    intros Hrun. inv_bind Hrun as [value1 h1] Hc.
    inv_bind Hrun as h2 Hset. injection Hrun as <- <-.
    eauto using keeps_trans, setitem_keeps.
Qed.

End keeps_validate.

(** X9. Without validators a successful validation keeps the shape of
    the store: it creates and removes no object, no list changes its
    length, and no dict loses a key. *)
Theorem validation_keeps_shape `{Host} {V : Type} `{Validator V}
    (fuel : nat) (n : node V) (key value schema : pyval) (h : heap)
    (schema' : pyval) (h' : heap) :
  no_validators n ->
  validate fuel n key value schema h = Ok (schema', h') ->
  keeps h h'
  /\ dom h' = dom h
  /\ (forall l xs, h !! l = Some (OList xs) ->
        exists xs', h' !! l = Some (OList xs') /\ length xs' = length xs)
  /\ (forall l d k, h !! l = Some (ODict d) -> is_Some (adict_get d k) ->
        exists d', h' !! l = Some (ODict d') /\ is_Some (adict_get d' k)).
Proof.
  intros Hnv Hrun. pose proof (validate_keeps n Hnv _ _ _ _ _ _ _ Hrun) as Hk.
  split; [done|]. split; [|split].
  - apply set_eq. intros l. rewrite !elem_of_dom. specialize (Hk l).
    destruct (h !! l) as [o|] eqn:E.
    + destruct Hk as (o' & -> & _). by split.
    + rewrite Hk. by split.
  - intros l xs Hl. specialize (Hk l). rewrite Hl in Hk.
    destruct Hk as ([d'|xs'] & E & Ho); simpl in Ho; [done|eauto].
  - intros l d k Hl Hd. specialize (Hk l). rewrite Hl in Hk.
    destruct Hk as ([d'|xs'] & E & Ho); simpl in Ho; [eauto|done].
Qed.

Lemma validation_keeps_shape_witness :
  dom (<[0%nat := ODict [(KStr "out", VRef 1)]]> Sample.store_hi) = dom Sample.store_hi.
Proof.
  apply (validation_keeps_shape (H := Sample.host) (H0 := Sample.validators)
           0 Sample.object_ab (VStr "out") (VRef 1) (VRef 0) Sample.store_hi (VRef 0)).
  - repeat split.
  - vm_compute. reflexivity.
Defined.

Section termination.
Context `{Host} {V : Type} `{Validator V}.
Import Store.
Implicit Types (n : node V) (cs : list (string * node V)) (h : heap).
Implicit Types (body : pyval -> pyval -> pyval -> heap -> result (pyval * heap)).
Hypothesis float_returns : forall v, py_float v <> OutOfFuel.
Hypothesis strptime_returns : forall v f, strptime v f <> OutOfFuel.

Lemma from_str_returns ty v : from_str ty v <> OutOfFuel.
Proof.
  destruct ty; simpl; try done.
  - destruct v; try done. simpl. unfold PyInt.of_str. by repeat case_match.
  - destruct v; try done; apply float_returns.
  - unfold Boolean_from_str. by repeat case_match.
  - destruct v; try done;
      match goal with |- _ <$> ?r <> _ =>
        pose proof (strptime_returns _ _ : r <> OutOfFuel); by destruct r end.
  - destruct v; try done;
      match goal with |- _ <$> ?r <> _ =>
        pose proof (strptime_returns _ _ : r <> OutOfFuel); by destruct r end.
Qed.

Lemma enumerate_str_returns body bound :
  (forall k v c h c' h', body k v c h = Ok (c', h') -> keeps h h') ->
  (forall k v c h, lists_within bound h -> body k v c h <> OutOfFuel) ->
  forall s i value h,
    lists_within bound h -> enumerate_str body s i value h <> OutOfFuel.
Proof.
  intros Hkeeps Hbody. induction s as [|c s IH]; intros i value h Hw; simpl; [done|].
  destruct (body _ _ value h) as [[value1 h1]| | |] eqn:Hb; try done.
  - simpl. eauto using lists_within_keeps.
  - by apply Hbody in Hb.
Qed.

Lemma enumerate_list_returns body bound l :
  (forall k v c h c' h', body k v c h = Ok (c', h') -> keeps h h') ->
  (forall k v c h, lists_within bound h -> body k v c h <> OutOfFuel) ->
  forall fuel i value h,
    lists_within bound h ->
    (forall xs, h !! l = Some (OList xs) -> (length xs <= i + fuel)%nat) ->
    enumerate_list body fuel l i value h <> OutOfFuel.
Proof.
  intros Hkeeps Hbody. induction fuel as [|fuel IH]; intros i value h Hw Hlen;
    simpl; destruct (h !! l) as [[d|xs]|] eqn:Hl; try done;
    destruct (xs !! i) as [item|] eqn:Hi; try done.
  - apply lookup_lt_Some in Hi. specialize (Hlen xs eq_refl). lia.
  - destruct (body _ item value h) as [[value1 h1]| | |] eqn:Hb; try done.
    + simpl. apply IH; [eauto using lists_within_keeps|].
      intros xs1 Hl1. apply Hkeeps in Hb.
      destruct (keeps_list _ _ _ _ Hb Hl1) as (xs0 & Hxs0 & ->).
      rewrite Hl in Hxs0. injection Hxs0 as <-. specialize (Hlen xs eq_refl). lia.
    + by apply Hbody in Hb.
Qed.

Lemma Object_items_returns fuel cs :
  Forall (fun c => no_validators c.2
                   /\ forall k v s h, lists_within fuel h ->
                        validate fuel c.2 k v s h <> OutOfFuel) cs ->
  forall value h,
    lists_within fuel h -> Object_items fuel cs value h <> OutOfFuel.
Proof.
  induction 1 as [|[ck cn] cs [Hnv Hc] _ IH]; intros value h Hw; simpl; [done|].
  destruct (py_get value ck h) as [fetched| | |] eqn:Hget; try done;
    [|by apply py_get_never_out_of_fuel in Hget].
  simpl. destruct (validate fuel cn (VStr ck) fetched value h)
    as [[value1 h1]| | |] eqn:Hv; try done.
  - simpl. apply IH. eapply lists_within_keeps; [|done].
    eapply validate_keeps; eauto.
  - by apply Hc in Hv.
Qed.

Lemma validate_returns n :
  no_validators n ->
  forall fuel key value schema h,
    lists_within fuel h -> validate fuel n key value schema h <> OutOfFuel.
Proof.
  induction n as [ty vs|vs cs IH|vs cs IH|on_fail cs IH|vs cs IH]
    using node_children_ind; intros Hnv fuel key value schema h Hw.
  - simpl in Hnv. subst vs. rewrite validate_Scalar.
    pose proof (from_str_returns ty value). by destruct (from_str ty value).
  - apply no_validators_children in Hnv as [-> Hcs].
    rewrite validate_TList. simpl run_validators. cbn [mbind result_bind].
    destruct cs as [|[name item] cs']; [done|].
    apply Forall_cons_1 in IH as [IHitem _]. apply Forall_cons_1 in Hcs as [Hitem _].
    simpl in IHitem, Hitem.
    assert (enumerate (validate fuel item) fuel value h <> OutOfFuel) as Hloop.
    { unfold enumerate. destruct value as [| | | |s| | |l]; try done.
      - apply (enumerate_str_returns _ fuel); eauto using validate_keeps.
      - destruct (h !! l) as [[d|xs]|] eqn:Hl; try done.
        apply (enumerate_list_returns _ fuel); eauto using validate_keeps. }
    by destruct (enumerate _ fuel value h) as [[]| | |].
  - apply no_validators_children in Hnv as [-> Hcs].
    rewrite validate_TObject. simpl run_validators. cbn [mbind result_bind].
    destruct cs as [|c cs']; [done|]. remember (c :: cs') as cs eqn:Ecs.
    assert (Hbodies : Forall (fun c => no_validators c.2
              /\ forall k v s h, lists_within fuel h ->
                   validate fuel c.2 k v s h <> OutOfFuel) cs).
    { clear Ecs. induction IH as [|c0 cs0 IH0 _ IHrec]; [constructor|].
      apply Forall_cons_1 in Hcs as [Hc0 Hcs0]. constructor; eauto. }
    pose proof (Object_items_returns _ _ Hbodies value h Hw) as Hitems.
    destruct (Object_items fuel cs value h) as [[value1 h1]| | |]; try done.
    cbn [mbind result_bind].
    pose proof (setitem_never_out_of_fuel schema key value1 h1).
    by destruct (setitem schema key value1 h1).
  - done.
  - rewrite validate_TCase. destruct cs as [|[name child] cs']; [done|].
    apply Forall_cons_1 in IH as [IHchild _]. simpl in IHchild.
    assert (Hchild : no_validators child) by (simpl in Hnv; tauto).
    pose proof (IHchild Hchild fuel key value schema h Hw) as Hc.
    destruct (validate fuel child key value schema h) as [[value1 h1]| | |];
      try done.
    cbn [mbind result_bind].
    pose proof (setitem_never_out_of_fuel schema key value h1).
    by destruct (setitem schema key value h1).
Qed.

End termination.

(** X10. Validation without validators ends: when the coercions of the
    host return, and [fuel] is at least the length of every list of the
    store, [validate] never runs out of fuel.  It returns a container
    or raises (or meets a value this development does not describe). *)
Theorem validation_terminates `{Host} {V : Type} `{Validator V}
    (fuel : nat) (n : node V) (key value schema : pyval) (h : heap) :
  (forall v, py_float v <> OutOfFuel) ->
  (forall v f, strptime v f <> OutOfFuel) ->
  no_validators n ->
  lists_within fuel h ->
  validate fuel n key value schema h <> OutOfFuel.
Proof. intros Hf Hs Hnv Hw. by apply validate_returns. Qed.

Lemma validation_terminates_witness :
  Sample.validate 3 (TList [] [("item", Scalar TInteger [])]) (VStr "out")
    (VRef 1) (VRef 0) Sample.store_list <> OutOfFuel.
Proof.
  apply (validation_terminates (H := Sample.host) (H0 := Sample.validators));
    [done | done | by repeat split |].
  intros l xs Hl. unfold Sample.store_list in Hl.
  apply lookup_insert_Some in Hl as [[_ [=]]|[_ Hl]].
  apply lookup_singleton_Some in Hl as [_ [= <-]]. simpl. lia.
Defined.

(** ** Values of the wrong shape *)

(** X11. An object node with declared children needs a mapping: when
    its own validators pass and the value is anything but a stored
    dict, the first [value.get] raises [AttributeError].  So a declared
    child that is itself an object with children, and whose key the
    mapping lacks, is not filled in: the [None] fetched for it makes its
    own validation raise. *)
Theorem object_needs_mapping `{Host} {V : Type} `{Validator V}
    (fuel : nat) (vs : list V) (child : string * node V)
    (cs : list (string * node V)) (key value schema : pyval) (h : heap) :
  (forall schema1 h1,
     run_validators vs key value schema h = Ok (schema1, h1) ->
     match value with
     | VRef l => exists xs, h1 !! l = Some (OList xs)
     | _ => True
     end ->
     validate fuel (TObject vs (child :: cs)) key value schema h
     = Raise AttributeError)
  /\ (forall l d child_key rest,
        value = VRef l ->
        h !! l = Some (ODict d) ->
        adict_get d (KStr child_key) = None ->
        validate fuel (TObject [] ((child_key, TObject [] (child :: cs)) :: rest))
          key value schema h
        = Raise AttributeError).
Proof.
  split.
  - intros schema1 h1 Hvs Hvalue. rewrite validate_TObject, Hvs.
    cbn [mbind result_bind]. destruct child as [ck cn].
    cbn [Object_items]. unfold Store.py_get.
    destruct value; try done. destruct Hvalue as [xs ->]. done.
  - intros l d child_key rest -> Hl Hd. rewrite validate_TObject.
    simpl run_validators. cbn [mbind result_bind Object_items].
    erewrite py_get_absent by done. cbn [mbind result_bind].
    rewrite validate_TObject. simpl run_validators. cbn [mbind result_bind].
    destruct child as [ck cn]. cbn [Object_items]. done.
Qed.

Lemma object_needs_mapping_witness :
  Sample.validate 0
    (TObject [] [("b", TObject [] [("c", Scalar TString [])])])
    (VStr "out") (VRef 1) (VRef 0) Sample.store_hi
  = Raise AttributeError
  /\ Sample.validate 0 Sample.object_ab (VStr "out") (VStr "text") (VRef 0)
       Sample.store_hi
     = Raise AttributeError.
Proof.
  split.
  - apply (proj2 (object_needs_mapping (H := Sample.host) (H0 := Sample.validators)
             0 [] ("c", Scalar TString []) [] (VStr "out") (VRef 1) (VRef 0)
             Sample.store_hi) 1%nat [(KStr "a", VStr "hi")] "b" []);
      reflexivity.
  - apply (proj1 (object_needs_mapping (H := Sample.host) (H0 := Sample.validators)
             0 [] ("a", Scalar TString []) [("b", Scalar TInteger [])]
             (VStr "out") (VStr "text") (VRef 0) Sample.store_hi)
             (VRef 0) Sample.store_hi); [reflexivity|exact I].
Defined.

(** X12. A choice node whose validators pass stops with [KeyError],
    before its own [schema[key] = value], when the selector is not a
    key of the container, and also when the container has the key but
    no case bears the selector's name. *)
Theorem choice_unknown_selector `{Host} {V : Type} `{Validator V}
    (fuel : nat) (on_fail : option string) (cs : list (string * node V))
    (key schema schema1 : pyval) (name : string) (h h1 : heap) :
  run_validators (Choice_validators on_fail cs) key (VStr name) schema h
  = Ok (schema1, h1) ->
  (forall l d,
     schema = VRef l -> h1 !! l = Some (ODict d) ->
     adict_get d (KStr name) = None ->
     validate fuel (TChoice on_fail cs) key (VStr name) schema h = Raise KeyError)
  /\ (forall branch,
        Store.getitem schema (VStr name) h1 = Ok branch ->
        adict_get cs name = None ->
        validate fuel (TChoice on_fail cs) key (VStr name) schema h = Raise KeyError).
Proof.
  intros Hvs. split.
  - intros l d -> Hl Hd. rewrite validate_TChoice, Hvs. cbn [mbind result_bind].
    unfold Store.getitem. rewrite Hl. simpl. by rewrite Hd.
  - intros branch Hget Hcase. rewrite validate_TChoice, Hvs.
    cbn [mbind result_bind]. rewrite Hget. cbn [mbind result_bind].
    by rewrite Choice_case_missing.
Qed.

Lemma choice_unknown_selector_witness :
  Sample.validate 0 (TChoice None [("z", TCase [] [("value", Scalar TString [])])])
    (VStr "selector") (VStr "z") (VRef 0) (Sample.store_selector "42")
  = Raise KeyError.
Proof.
  apply (proj1 (choice_unknown_selector (H := Sample.host) (H0 := Sample.validators)
           0 None [("z", TCase [] [("value", Scalar TString [])])]
           (VStr "selector") (VRef 0) (VRef 0) "z"
           (Sample.store_selector "42") (Sample.store_selector "42") eq_refl)
           0%nat
           [(KStr "selector", VStr "x"); (KStr "x", VStr "42"); (KStr "y", VStr "7")]);
    reflexivity.
Defined.

(** ** [from_xml] in this revision *)

Section from_xml_facts.
Import Build.
Context {V : Type}.

Lemma construct_raises c : construct (V := V) c = Raise TypeError.
Proof. by destruct c. Qed.

Lemma DataType_from_xml_raises : forall e c,
  DataType_from_xml (V := V) c e = Raise KeyError
  \/ DataType_from_xml (V := V) c e = Raise TypeError.
Proof.
  fix IH 1. intros [tag attrib children] c. simpl.
  destruct (adict_get attrib "name") as [name|]; [|by left].
  destruct children as [|child rest].
  - right. apply construct_raises.
  - destruct (IH child CDataType) as [-> | ->]; simpl; auto.
Qed.

End from_xml_facts.

(** X17. In this revision no node can be built from markup: for every
    class [from_xml] raises.  [Date.from_xml] and [Time.from_xml] raise
    [TypeError] at once, because they pass [strict] to an inherited
    method that takes the element only.  The inherited method raises
    [KeyError] on an element without [name]; otherwise it raises what
    the first child element makes it raise, and on an element without
    children [TypeError], because it calls the class with keyword
    arguments that no [__init__] of the module accepts. *)
Theorem from_xml_never_returns {V : Type} (c : Build.cls) (e : Build.xml) :
  c <> Build.CPydantic ->
  (Build.from_xml (V := V) c e = Raise KeyError
   \/ Build.from_xml (V := V) c e = Raise TypeError)
  /\ (c = Build.CDate \/ c = Build.CTime ->
      Build.from_xml (V := V) c e = Raise TypeError)
  /\ (c <> Build.CDate -> c <> Build.CTime ->
      adict_get (Build.xattrib e) "name" = None ->
      Build.from_xml (V := V) c e = Raise KeyError)
  /\ (c <> Build.CDate -> c <> Build.CTime ->
      is_Some (adict_get (Build.xattrib e) "name") ->
      Build.xchildren e = [] ->
      Build.from_xml (V := V) c e = Raise TypeError).
Proof.
  intros Hc. split; [|split; [|split]].
  - destruct c; try done; simpl; auto using DataType_from_xml_raises.
  - by intros [-> | ->].
  - intros Hd Ht Hname. destruct e as [tag attrib children]. simpl in Hname.
    destruct c; try done; simpl; by rewrite Hname.
  - intros Hd Ht [name Hname] Hch. destruct e as [tag attrib children].
    simpl in Hname, Hch. subst children.
    destruct c; try done; simpl; by rewrite Hname.
Qed.

Lemma from_xml_never_returns_witness :
  Build.from_xml (V := Sample.validator) Build.CString
    (Build.XML "string" [("name", "s")] [])
  = Raise TypeError.
Proof.
  apply (proj2 (proj2 (proj2 (from_xml_never_returns (V := Sample.validator)
           Build.CString (Build.XML "string" [("name", "s")] []) ltac:(done))))).
  - done.
  - done.
  - by eexists.
  - done.
Defined.

(** ** [set_children] over this revision's [from_xml] *)

Section set_children_facts.
Import Build.
Context {V : Type}.

Lemma registry_get_pydantic tag : registry_get tag = Ok CPydantic -> tag = "pydantic".
Proof.
  unfold registry_get. destruct (adict_get registry tag) as [c|] eqn:E; [|done].
  intros [= ->]. unfold registry in E. simpl in E.
  repeat (case_decide; [by simplify_eq|]). done.
Qed.

Lemma from_xml_raises c e :
  c <> CPydantic ->
  from_xml (V := V) c e = Raise KeyError \/ from_xml (V := V) c e = Raise TypeError.
Proof.
  intros Hc. destruct c; try done; simpl; auto using DataType_from_xml_raises.
Qed.

(** The first two steps of every loop body:
    [registry[child.tag].from_xml(child)]. *)
Lemma child_build_raises child :
  xtag child <> "pydantic" ->
  (c ← registry_get (xtag child); from_xml (V := V) c child) = Raise KeyError
  \/ (c ← registry_get (xtag child); from_xml (V := V) c child) = Raise TypeError.
Proof.
  intros Htag. destruct (registry_get (xtag child)) as [c| | |] eqn:Hreg.
  - simpl. apply from_xml_raises. intros ->. by apply Htag, registry_get_pydantic.
  - unfold registry_get in Hreg. destruct (adict_get registry (xtag child)); simplify_eq.
    by left.
  - unfold registry_get in Hreg. by destruct (adict_get registry (xtag child)).
  - unfold registry_get in Hreg. by destruct (adict_get registry (xtag child)).
Qed.

End set_children_facts.

(** X18. With the [from_xml] of this revision the [set_children]
    methods get past no child element: on an element whose first child
    is not a [pydantic] element, those of [List] and [Object] raise
    [KeyError] (tag not in the registry, or no [name]) or [TypeError],
    and those of [Choice] and [Case] one of these or
    [AssertionError]; whatever children the node had are not
    returned. *)
Theorem set_children_rejects_children {V : Type}
    (e child : Build.xml) (rest : list Build.xml) (cs0 : list (string * node V)) :
  Build.xchildren e = child :: rest ->
  Build.xtag child <> "pydantic" ->
  (Build.List_set_children Build.from_xml e cs0 = Raise KeyError
   \/ Build.List_set_children Build.from_xml e cs0 = Raise TypeError)
  /\ (Build.Object_set_children Build.from_xml e cs0 = Raise KeyError
      \/ Build.Object_set_children Build.from_xml e cs0 = Raise TypeError)
  /\ (Build.Choice_set_children Build.from_xml e cs0 = Raise KeyError
      \/ Build.Choice_set_children Build.from_xml e cs0 = Raise TypeError
      \/ Build.Choice_set_children Build.from_xml e cs0
         = Raise (OtherError "AssertionError"))
  /\ (Build.Case_set_children Build.from_xml e cs0 = Raise KeyError
      \/ Build.Case_set_children Build.from_xml e cs0 = Raise TypeError
      \/ Build.Case_set_children Build.from_xml e cs0
         = Raise (OtherError "AssertionError")).
Proof.
  intros He Htag. pose proof (child_build_raises (V := V) child Htag) as Hbuild.
  unfold Build.List_set_children, Build.Object_set_children,
    Build.Choice_set_children, Build.Case_set_children. rewrite He.
  assert (Hloop :
    Build.Object_set_children_loop Build.from_xml (child :: rest) cs0 = Raise KeyError
    \/ Build.Object_set_children_loop Build.from_xml (child :: rest) cs0
       = Raise TypeError).
  { simpl. destruct (Build.registry_get (Build.xtag child)) as [c| | |];
      simpl in *; [|destruct Hbuild; simplify_eq; auto..].
    destruct Hbuild as [Hb | Hb]; rewrite Hb; simpl; auto. }
  split; [|split; [|split]].
  - simpl. destruct (Build.registry_get (Build.xtag child)) as [c| | |];
      simpl in *; [|destruct Hbuild; simplify_eq; auto..].
    destruct Hbuild as [Hb | Hb]; rewrite Hb; simpl; auto.
  - exact Hloop.
  - simpl. destruct (Build.registry_get (Build.xtag child)) as [c| | |];
      simpl in *; [|destruct Hbuild; simplify_eq; auto..].
    case_bool_decide; [|by auto].
    destruct Hbuild as [Hb | Hb]; rewrite Hb; simpl; auto.
  - case_bool_decide; [|by auto]. destruct Hloop as [-> | ->]; auto.
Qed.

Lemma set_children_rejects_children_witness :
  Build.Object_set_children (V := Sample.validator) Build.from_xml
    (Build.XML "object" [("name", "o")] [SampleBuild.leaf "string" "a"]) []
  = Raise KeyError
  \/ Build.Object_set_children (V := Sample.validator) Build.from_xml
       (Build.XML "object" [("name", "o")] [SampleBuild.leaf "string" "a"]) []
     = Raise TypeError.
Proof.
  apply (proj1 (proj2 (set_children_rejects_children (V := Sample.validator)
           (Build.XML "object" [("name", "o")] [SampleBuild.leaf "string" "a"])
           (SampleBuild.leaf "string" "a") [] [] eq_refl ltac:(done)))).
Defined.
